(** * Raster: image-to-SVG conversion service

    A shallow embedding of the conversion core of the backend
    ([app/vectorizer.py], [app/cache.py], [app/tasks.py]) together with the
    properties its specification states about it. *)

From Stdlib Require Import Ascii String.
From stdpp Require Import gmap strings list pretty sorting.

Set Warnings "-register-all".


(** ** Text helpers shared by all modules *)

(** The double-quote character, and a string made of it. *)
Definition dquote_char : ascii := ascii_of_nat 34.
Definition dquote : string := String dquote_char EmptyString.

(** The line feed used by ['\n'.join] and by the streaming generator. *)
Definition newline : string := String (ascii_of_nat 10) EmptyString.

(** [' name="value"'], the shape of every attribute the f-strings write. *)
Definition attr (name value : string) : string :=
  " " +:+ name +:+ "=" +:+ dquote +:+ value +:+ dquote.

(** Python's [sep.join(parts)]. *)
Fixpoint join (sep : string) (parts : list string) : string :=
  match parts with
  | [] => EmptyString
  | [p] => p
  | p :: ps => p +:+ sep +:+ join sep ps
  end.

(** Python's [s.replace(old, new, 1)]: only the first occurrence, scanning
    from the left. *)
Fixpoint replace_first (old new s : string) : string :=
  if String.prefix old s
  then new +:+ String.substring (String.length old) (String.length s - String.length old) s
  else match s with
       | EmptyString => EmptyString
       | String c s' => String c (replace_first old new s')
       end.

(** Python's [range(0, stop, step)] for a positive step. *)
Definition py_range (stop step : nat) : list nat :=
  (λ i, i * step) <$> seq 0 ((stop + step - 1) / step).

(** ** The vectorization engine ([app/vectorizer.py]) *)

Module Vectorizer.

(** A two-dimensional numpy array: its [shape] and the sample stored at
    every index [(y, x)]; only indices inside the shape are ever read. *)
Record ndarray := Ndarray {
  height : nat;
  width : nat;
  item : nat → nat → Z
}.

(** A rectangle primitive, before it is written out as a [<rect .../>]. *)
Record rect := Rect {
  rx : nat;
  ry : nat;
  rw : nat;
  rh : nat;
  rfill : string
}.

Global Instance rect_eq_dec : EqDecision rect.
Proof. solve_decision. Defined.

(** The f-string of every [paths.append]. *)
Definition rect_svg (r : rect) : string :=
  "<rect" +:+ attr "x" (pretty (rx r)) +:+ attr "y" (pretty (ry r))
          +:+ attr "width" (pretty (rw r)) +:+ attr "height" (pretty (rh r))
          +:+ attr "fill" (rfill r) +:+ "/>".

Definition threshold : Z := 128.

(** [binary = image_array < threshold] *)
Definition binary (a : ndarray) (y x : nat) : bool :=
  bool_decide (item a y x < threshold)%Z.

(** The [visited] array: the set of indices that were set to [True]. *)
Abbreviation visited_map := (gset (nat * nat)).

Definition is_visited (v : visited_map) (y x : nat) : bool :=
  bool_decide ((y, x) ∈ v).

(** The inner [while] of [_generate_binary_paths]: advance [x] over a run,
    marking every cell of it. *)
Fixpoint mark_run (fuel : nat) (a : ndarray) (y x : nat) (v : visited_map)
  : nat * visited_map :=
  match fuel with
  | 0 => (x, v)
  | S fuel' =>
      if bool_decide (x < width a) && binary a y x && negb (is_visited v y x)
      then mark_run fuel' a y (S x) ({[ (y, x) ]} ∪ v)
      else (x, v)
  end.

(** What is appended once a run [x_start .. x_end) has been delimited. *)
Definition emit_run (simplify : bool) (y x_start x_end : nat) : list rect :=
  if simplify && bool_decide (1 < x_end - x_start)
  then [Rect x_start y (x_end - x_start) 1 "black"]
  else (λ xi, Rect xi y 1 1 "black") <$> seq x_start (x_end - x_start).

(** The outer [while x < width] of one row. *)
Fixpoint scan_row (fuel : nat) (a : ndarray) (simplify : bool) (y x : nat)
    (v : visited_map) (paths : list rect) : visited_map * list rect :=
  match fuel with
  | 0 => (v, paths)
  | S fuel' =>
      if bool_decide (x < width a) then
        if binary a y x && negb (is_visited v y x) then
          let '(x_end, v') := mark_run (width a - x) a y x v in
          scan_row fuel' a simplify y x_end v' (paths ++ emit_run simplify y x x_end)
        else scan_row fuel' a simplify y (S x) v paths
      else (v, paths)
  end.

(** [for y in range(height)] *)
Definition scan_rows (a : ndarray) (simplify : bool) (ys : list nat)
    (st : visited_map * list rect) : visited_map * list rect :=
  foldl (λ st y, scan_row (width a) a simplify y 0 st.1 st.2) st ys.

Definition binary_rects (a : ndarray) (simplify : bool) : list rect :=
  (scan_rows a simplify (seq 0 (height a)) (∅, [])).2.

Definition _generate_binary_paths (a : ndarray) (simplify : bool) : list string :=
  rect_svg <$> binary_rects a simplify.

(** [f'rgb({gray_value},{gray_value},{gray_value})'] *)
Definition rgb (gray_value : Z) : string :=
  "rgb(" +:+ pretty gray_value +:+ "," +:+ pretty gray_value +:+ ","
         +:+ pretty gray_value +:+ ")".

Definition grayscale_step (simplify : bool) : nat := if simplify then 2 else 1.

Definition grayscale_rects (a : ndarray) (simplify : bool) : list rect :=
  let step := grayscale_step simplify in
  y ← py_range (height a) step;
  x ← py_range (width a) step;
  [Rect x y step step (rgb (item a y x))].

Definition _generate_grayscale_paths (a : ndarray) (simplify : bool) : list string :=
  rect_svg <$> grayscale_rects a simplify.

Definition svg_namespace : string := "http://www.w3.org/2000/svg".

(** The opening tag written by [_create_svg_from_array] and, followed by a
    line feed, by [vectorize_streaming]. *)
Definition svg_open (width height : nat) : string :=
  "<svg" +:+ attr "xmlns" svg_namespace
         +:+ attr "width" (pretty width) +:+ attr "height" (pretty height)
         +:+ attr "viewBox" ("0 0 " +:+ pretty width +:+ " " +:+ pretty height)
         +:+ ">".

Definition svg_close : string := "</svg>".

(** The rectangles behind [paths] in [_create_svg_from_array]: any mode
    other than ['binary'] takes the grayscale branch. *)
Definition vectorize_rects (a : ndarray) (color_mode : string) (simplify : bool)
  : list rect :=
  if bool_decide (color_mode = "binary") then binary_rects a simplify
  else grayscale_rects a simplify.

Definition _create_svg_from_array (a : ndarray) (width height : nat)
    (color_mode : string) (simplify : bool) : string :=
  let svg_parts := [svg_open width height] in
  let paths :=
    if bool_decide (color_mode = "binary") then _generate_binary_paths a simplify
    else _generate_grayscale_paths a simplify in
  join newline (svg_parts ++ paths ++ [svg_close]).

(** [vectorize]; [processing_time] is the text of
    [f'{processing_time:.2f}'], a reading of the clock. *)
Definition vectorize (a : ndarray) (color_mode : string) (simplify : bool)
    (processing_time : string) : string :=
  let svg_data := _create_svg_from_array a (width a) (height a) color_mode simplify in
  replace_first "<svg"
    ("<svg" +:+ attr "data-processing-time" (processing_time +:+ "ms"))
    svg_data.

(** [image_array[y_start:y_end, :]] *)
Definition chunk (a : ndarray) (y_start y_end : nat) : ndarray :=
  Ndarray (y_end - y_start) (width a) (λ y x, item a (y_start + y) x).

(** The inner [while] of [_generate_paths_for_chunk]. *)
Fixpoint skip_run (fuel : nat) (c : ndarray) (y x : nat) : nat :=
  match fuel with
  | 0 => x
  | S fuel' =>
      if bool_decide (x < width c) && binary c y x
      then skip_run fuel' c y (S x)
      else x
  end.

(** The outer [while] of [_generate_paths_for_chunk] for one row: a run is
    appended only under [simplify and x_end - x_start > 1]; there is no
    [else] branch. *)
Fixpoint scan_chunk_row (fuel : nat) (c : ndarray) (y_offset : nat)
    (simplify : bool) (y x : nat) (paths : list rect) : list rect :=
  match fuel with
  | 0 => paths
  | S fuel' =>
      if bool_decide (x < width c) then
        if binary c y x then
          let x_end := skip_run (width c - x) c y x in
          let actual_y := y_offset + y in
          scan_chunk_row fuel' c y_offset simplify y x_end
            (if simplify && bool_decide (1 < x_end - x)
             then paths ++ [Rect x actual_y (x_end - x) 1 "black"]
             else paths)
        else scan_chunk_row fuel' c y_offset simplify y (S x) paths
      else paths
  end.

Definition chunk_rects (c : ndarray) (y_offset : nat) (color_mode : string)
    (simplify : bool) : list rect :=
  foldl (λ paths y, scan_chunk_row (width c) c y_offset simplify y 0 paths)
        [] (seq 0 (height c)).

Definition _generate_paths_for_chunk (c : ndarray) (y_offset : nat)
    (color_mode : string) (simplify : bool) : list string :=
  rect_svg <$> chunk_rects c y_offset color_mode simplify.

(** The bands of [vectorize_streaming], as [(y_start, y_end)]. *)
Definition bands (height : nat) : list (nat * nat) :=
  let chunk_height := max 1 (height / 10) in
  (λ y_start, (y_start, min (y_start + chunk_height) height))
    <$> py_range height chunk_height.

(** The rectangles of all bands, in the order they are yielded. *)
Definition streaming_rects (a : ndarray) (color_mode : string) (simplify : bool)
  : list rect :=
  b ← bands (height a);
  chunk_rects (chunk a b.1 b.2) b.1 color_mode simplify.

(** [vectorize_streaming]: the finite sequence of yielded fragments. The
    [await self._yield_control()] between two bands yields nothing. *)
Definition vectorize_streaming (a : ndarray) (color_mode : string)
    (simplify : bool) : list string :=
  [svg_open (width a) (height a) +:+ newline]
  ++ (b ← bands (height a);
      (λ path, path +:+ newline)
        <$> _generate_paths_for_chunk (chunk a b.1 b.2) b.1 color_mode simplify)
  ++ [svg_close].

(** *** Geometry of the emitted rectangles *)

(** A pixel of the grid whose intensity is strictly below the threshold. *)
Definition dark (a : ndarray) (x y : nat) : bool :=
  bool_decide (x < width a) && bool_decide (y < height a) && binary a y x.

(** The pixel [(x, y)] lies inside the rectangle. *)
Definition covers (r : rect) (x y : nat) : bool :=
  bool_decide (rx r ≤ x < rx r + rw r) && bool_decide (ry r ≤ y < ry r + rh r).

(** How many rectangles of the list cover the pixel. *)
Fixpoint cover_count (rs : list rect) (x y : nat) : nat :=
  match rs with
  | [] => 0
  | r :: rs' => (if covers r x y then 1 else 0) + cover_count rs' x y
  end.

(** [xs .. xe) is a maximal contiguous run of dark pixels of row [y]. *)
Definition maximal_run (a : ndarray) (y xs xe : nat) : Prop :=
  xs < xe ≤ width a
  ∧ (∀ i, xs ≤ i < xe → binary a y i = true)
  ∧ (xs = 0 ∨ binary a y (xs - 1) = false)
  ∧ (xe = width a ∨ binary a y xe = false).

(** The rectangles of one row, read off the row without the [visited]
    bookkeeping; [scan_row] is shown to compute exactly this. *)
Fixpoint row_rects (fuel : nat) (a : ndarray) (simplify : bool) (y x : nat)
  : list rect :=
  match fuel with
  | 0 => []
  | S fuel' =>
      if bool_decide (x < width a) then
        if binary a y x then
          let x_end := skip_run (width a - x) a y x in
          emit_run simplify y x x_end ++ row_rects fuel' a simplify y x_end
        else row_rects fuel' a simplify y (S x)
      else []
  end.

(** Every marked cell lies strictly before position [(y, x)] in row-major
    order: what the scan has not reached yet is unmarked. *)
Definition unreached (v : visited_map) (y x : nat) : Prop :=
  ∀ y' x', (y', x') ∈ v → y' < y ∨ (y' = y ∧ x' < x).

(** A position of the row at which no run is cut in two. *)
Definition run_boundary (a : ndarray) (y x : nat) : Prop :=
  x = 0 ∨ width a ≤ x ∨ binary a y (x - 1) = false ∨ binary a y x = false.

(** The fixture image: 100 by 100, white, with a black square covering the
    columns and rows 20 to 79. *)
Definition black_square_100 : ndarray :=
  Ndarray 100 100
    (λ y x, if bool_decide (20 ≤ x < 80 ∧ 20 ≤ y < 80) then 0%Z else 255%Z).

(** Same shape, same samples at every index inside it. *)
Definition same_array (a b : ndarray) : Prop :=
  height a = height b ∧ width a = width b
  ∧ ∀ y x, y < height a → x < width a → item a y x = item b y x.

(** A row of three pixels of which only the middle one is dark. *)
Definition lone_pixel : ndarray :=
  Ndarray 1 3 (λ _ x, if bool_decide (x = 1) then 0%Z else 255%Z).

(** *** Further vocabulary for the emitted geometry *)

(** Every index of the grid, row by row, left to right. *)
Definition positions (a : ndarray) : list (nat * nat) :=
  y ← seq 0 (height a); x ← seq 0 (width a); [(x, y)].

(** The dark pixels, as [(x, y)], in row-major order. *)
Definition dark_pixels (a : ndarray) : list (nat * nat) :=
  filter (λ p, dark a p.1 p.2 = true) (positions a).

(** [r1] comes before [r2] in row-major order and does not reach into it. *)
Definition before (r1 r2 : rect) : Prop :=
  ry r1 < ry r2 ∨ (ry r1 = ry r2 ∧ rx r1 + rw r1 ≤ rx r2).

(** The pixel to the left or the pixel to the right is dark too. *)
Definition has_dark_neighbour (a : ndarray) (x y : nat) : bool :=
  (bool_decide (0 < x) && binary a y (x - 1))
  || (bool_decide (x + 1 < width a) && binary a y (x + 1)).

(** Number of rectangles of the list that are sampled at [v] along one
    axis and reach [p]. *)
Definition reach_count (side : nat) (origins : list nat) (p : nat) : nat :=
  length (filter (λ v, v ≤ p < v + side) origins).

End Vectorizer.

(** ** Well-formed XML, as [xml.etree.ElementTree] reads it

    [validate_svg] hands the text to the XML parser of the Python library.
    A text is accepted when it is the serialization of an element tree
    whose names, attribute values and character data obey the XML
    grammar. *)

Module Xml.

Inductive node :=
| Element (tag : string) (attrs : list (string * string)) (children : list node)
| Text (data : string).

Fixpoint string_forall (P : ascii → bool) (s : string) : bool :=
  match s with
  | EmptyString => true
  | String c s' => P c && string_forall P s'
  end.

Definition in_range (lo hi : nat) (c : ascii) : bool :=
  bool_decide (lo ≤ nat_of_ascii c ≤ hi).

(** [NameStartChar], restricted to ASCII. *)
Definition name_start_char (c : ascii) : bool :=
  in_range 65 90 c || in_range 97 122 c
  || bool_decide (c = "_"%char) || bool_decide (c = ":"%char).

(** [NameChar], restricted to ASCII. *)
Definition name_char (c : ascii) : bool :=
  name_start_char c || in_range 48 57 c
  || bool_decide (c = "-"%char) || bool_decide (c = "."%char).

Definition name_ok (s : string) : bool :=
  match s with
  | EmptyString => false
  | String c s' => name_start_char c && string_forall name_char s'
  end.

(** [AttValue] between double quotes: no [<], no [&], no double quote. *)
Definition value_char (c : ascii) : bool :=
  negb (bool_decide (c = "<"%char)) && negb (bool_decide (c = "&"%char))
  && negb (bool_decide (c = dquote_char)).

Definition value_ok (s : string) : bool := string_forall value_char s.

(** [CharData]: no [<], no [&]; [>] is left out too, which rules out the
    forbidden end-of-section marker. *)
Definition text_char (c : ascii) : bool :=
  negb (bool_decide (c = "<"%char)) && negb (bool_decide (c = "&"%char))
  && negb (bool_decide (c = ">"%char)).

Definition text_ok (s : string) : bool := string_forall text_char s.

Fixpoint well_formed (n : node) : bool :=
  match n with
  | Text data => text_ok data
  | Element tag attrs children =>
      name_ok tag
      && forallb (λ kv, name_ok kv.1 && value_ok kv.2) attrs
      && bool_decide (NoDup attrs.*1)
      && forallb well_formed children
  end.

Definition attrs_to_string (attrs : list (string * string)) : string :=
  foldr (λ kv s, attr kv.1 kv.2 +:+ s) EmptyString attrs.

(** The text of a tree: an element without content is written as an
    empty-element tag. *)
Fixpoint to_string (n : node) : string :=
  match n with
  | Text data => data
  | Element tag attrs children =>
      match children with
      | [] => "<" +:+ tag +:+ attrs_to_string attrs +:+ "/>"
      | _ :: _ =>
          "<" +:+ tag +:+ attrs_to_string attrs +:+ ">"
          +:+ foldr (λ c s, to_string c +:+ s) EmptyString children
          +:+ "</" +:+ tag +:+ ">"
      end
  end.

(** Value of an attribute of an element. *)
Definition attribute (n : node) (name : string) : option string :=
  match n with
  | Element _ attrs _ => (list_to_map attrs : gmap string string) !! name
  | Text _ => None
  end.

Definition tag_of (n : node) : option string :=
  match n with
  | Element tag _ _ => Some tag
  | Text _ => None
  end.

(** The contract of an SVG document of [w] by [h] pixels: the text is that
    of a well-formed tree whose root is an [svg] element declaring the SVG
    namespace, with [width], [height] and [viewBox] set from [w] and [h]. *)
Definition svg_contract (w h : nat) (doc : string) : Prop :=
  ∃ root,
    to_string root = doc
    ∧ well_formed root = true
    ∧ tag_of root = Some "svg"
    ∧ attribute root "xmlns" = Some "http://www.w3.org/2000/svg"
    ∧ attribute root "width" = Some (pretty w)
    ∧ attribute root "height" = Some (pretty h)
    ∧ attribute root "viewBox"
      = Some ("0 0 " +:+ pretty w +:+ " " +:+ pretty h).

(** The tree behind one [<rect .../>]. *)
Definition rect_node (r : Vectorizer.rect) : node :=
  Element "rect"
    [("x", pretty (Vectorizer.rx r)); ("y", pretty (Vectorizer.ry r));
     ("width", pretty (Vectorizer.rw r)); ("height", pretty (Vectorizer.rh r));
     ("fill", Vectorizer.rfill r)]
    [].

(** The tree behind a whole document; [extra] are the attributes put in
    front of the declared ones. *)
Definition svg_node (extra : list (string * string)) (w h : nat)
    (rects : list Vectorizer.rect) : node :=
  Element "svg"
    (extra ++ [("xmlns", Vectorizer.svg_namespace);
               ("width", pretty w); ("height", pretty h);
               ("viewBox", "0 0 " +:+ pretty w +:+ " " +:+ pretty h)])
    (Text newline :: (rects ≫= λ r, [rect_node r; Text newline])).

(** The rectangles of a document, each followed by a line feed, then the
    closing tag. *)
Definition body_text (rects : list Vectorizer.rect) : string :=
  foldr (λ r s, Vectorizer.rect_svg r +:+ newline +:+ s) Vectorizer.svg_close rects.

(** The opening tag with [extra] attributes in front. *)
Definition svg_open_with (extra : list (string * string)) (w h : nat) : string :=
  "<svg" +:+ attrs_to_string extra
         +:+ attr "xmlns" Vectorizer.svg_namespace
         +:+ attr "width" (pretty w) +:+ attr "height" (pretty h)
         +:+ attr "viewBox" ("0 0 " +:+ pretty w +:+ " " +:+ pretty h)
         +:+ ">".

(** The attributes every root element declares. *)
Definition declared_attrs (w h : nat) : list (string * string) :=
  [("xmlns", Vectorizer.svg_namespace); ("width", pretty w); ("height", pretty h);
   ("viewBox", "0 0 " +:+ pretty w +:+ " " +:+ pretty h)].

End Xml.

(** ** Python values shared by the cache and the orchestrator *)

Module Py.

(** What a call into a library or another component can do: hand back a
    value or raise an [Exception] (kept as its message). *)
Inductive outcome (A : Type) :=
| Returned (a : A)
| Raised (e : string).
Global Arguments Returned {A} a.
Global Arguments Raised {A} e.

(** The values of the parameter dictionary that is serialized to JSON. *)
Inductive json :=
| JNull
| JBool (b : bool)
| JInt (z : Z)
| JStr (s : string).

(** A [dict] with string keys, as the list of its items in insertion order;
    the keys of a dict are pairwise distinct. *)
Definition pydict := list (string * json).

(** [params.get(key, default)] *)
Definition dict_get (d : pydict) (key : string) (default : json) : json :=
  match (list_to_map d : gmap string json) !! key with
  | Some v => v
  | None => default
  end.

End Py.

(** ** The cache layer ([app/cache.py]) *)

Module CacheManager.
Import Py.

Abbreviation bytes := (list Byte.byte).

(** A connected [redis.Redis] client: each command either returns or
    raises, and may change the state [world] of the backing store. *)
Record Redis (world : Type) := {
  redis_get : string → world → outcome (option bytes) * world;
  redis_setex : string → Z → bytes → world → outcome unit * world;
  redis_exists : string → world → outcome Z * world
}.
Global Arguments redis_get {world}.
Global Arguments redis_setex {world}.
Global Arguments redis_exists {world}.

Record CacheManager (world : Type) := {
  enabled : bool;
  ttl : Z;
  redis_client : option (Redis world)
}.
Global Arguments enabled {world}.
Global Arguments ttl {world}.
Global Arguments redis_client {world}.

Section key.
(** The two library functions [generate_cache_key] relies on:
    [xxhash.xxh64(data).hexdigest()] and the string literal encoder of the
    [json] module. *)
Variable xxh64_hexdigest : bytes → string.
Variable encode_basestring : string → string.

(** Order of the items under [sort_keys=True]. *)
Definition key_le (kv1 kv2 : string * json) : Prop := String.le kv1.1 kv2.1.

Global Instance key_le_dec : RelDecision key_le.
Proof. intros kv1 kv2. unfold key_le. apply _. Defined.

Definition dumps_value (v : json) : string :=
  match v with
  | JNull => "null"
  | JBool true => "true"
  | JBool false => "false"
  | JInt z => pretty z
  | JStr s => encode_basestring s
  end.

Definition dumps_item (kv : string * json) : string :=
  encode_basestring kv.1 +:+ ": " +:+ dumps_value kv.2.

(** [json.dumps(params, sort_keys=True)] *)
Definition json_dumps_sorted (params : pydict) : string :=
  "{" +:+ join ", " (dumps_item <$> merge_sort key_le params) +:+ "}".

(** [generate_cache_key]: the two [hasher.update] calls feed the hasher
    the image bytes followed by the encoded JSON text. *)
Definition generate_cache_key {world} (self : CacheManager world)
    (image_data : bytes) (params : pydict) : string :=
  "svg:" +:+ xxh64_hexdigest
               (image_data ++ String.list_byte_of_string (json_dumps_sorted params)).

End key.

Section commands.
Context {world : Type}.

(** [await self.get(key)] *)
Definition get (self : CacheManager world) (key : string) (w : world)
  : outcome (option bytes) * world :=
  match redis_client self with
  | Some client =>
      if negb (enabled self) then (Returned None, w)
      else
        match redis_get client key w with
        | (Returned data, w') => (Returned data, w')
        | (Raised e, w') => (Returned None, w')
        end
  | None => (Returned None, w)
  end.

(** [ttl or self.ttl] *)
Definition ttl_or (ttl : option Z) (default : Z) : Z :=
  match ttl with
  | Some t => if bool_decide (t = 0%Z) then default else t
  | None => default
  end.

(** [await self.set(key, value, ttl)] *)
Definition set (self : CacheManager world) (key : string) (value : bytes)
    (ttl_arg : option Z) (w : world) : outcome unit * world :=
  match redis_client self with
  | Some client =>
      if negb (enabled self) then (Returned tt, w)
      else
        match redis_setex client key (ttl_or ttl_arg (ttl self)) value w with
        | (Returned _, w') => (Returned tt, w')
        | (Raised e, w') => (Returned tt, w')
        end
  | None => (Returned tt, w)
  end.

(** [await self.exists(key)] *)
Definition exists_ (self : CacheManager world) (key : string) (w : world)
  : outcome bool * world :=
  match redis_client self with
  | Some client =>
      if negb (enabled self) then (Returned false, w)
      else
        match redis_exists client key w with
        | (Returned n, w') => (Returned (negb (bool_decide (n = 0%Z))), w')
        | (Raised e, w') => (Returned false, w')
        end
  | None => (Returned false, w)
  end.

End commands.

(** A client whose server cannot be reached. *)
Definition failing_client : Redis unit := {|
  redis_get := λ _ w, (Raised "ConnectionError", w);
  redis_setex := λ _ _ _ w, (Raised "ConnectionError", w);
  redis_exists := λ _ w, (Raised "ConnectionError", w)
|}.

(** The commands of the client that [connect], [disconnect] and
    [get_stats] use. *)
Record RedisControl (world : Type) := {
  redis_ping : world → outcome unit * world;
  redis_close : world → outcome unit * world;
  redis_info : string → world → outcome (gmap string Z) * world;
  redis_dbsize : world → outcome Z * world
}.
Global Arguments redis_ping {world}.
Global Arguments redis_close {world}.
Global Arguments redis_info {world}.
Global Arguments redis_dbsize {world}.

Section lifecycle.
Context {world : Type}.

(** [await self.connect()]; [make_client] is the call [redis.Redis(...)],
    which hands back the client with its commands. *)
Definition connect (self : CacheManager world)
    (make_client : outcome (Redis world * RedisControl world)) (w : world)
  : CacheManager world * world :=
  if negb (enabled self) then (self, w)
  else
    match make_client with
    | Returned (client, control) =>
        match redis_ping control w with
        | (Returned _, w') =>
            (Build_CacheManager world (enabled self) (ttl self) (Some client), w')
        | (Raised e, w') =>
            (Build_CacheManager world false (ttl self) (Some client), w')
        end
    | Raised e =>
        (Build_CacheManager world false (ttl self) (redis_client self), w)
    end.

(** [await self.disconnect()]; the call to [close] is not guarded. *)
Definition disconnect (self : CacheManager world) (control : RedisControl world)
    (w : world) : outcome unit * world :=
  match redis_client self with
  | Some _ => redis_close control w
  | None => (Returned tt, w)
  end.

(** [info.get(name, 0)] *)
Definition info_get (info : gmap string Z) (name : string) : Z :=
  match info !! name with
  | Some n => n
  | None => 0%Z
  end.

(** [await self.get_stats()] *)
Definition get_stats (self : CacheManager world) (control : RedisControl world)
    (w : world) : pydict * world :=
  match redis_client self with
  | Some _ =>
      if negb (enabled self) then ([("enabled", JBool false)], w)
      else
        match redis_info control "stats" w with
        | (Returned info, w') =>
            match redis_dbsize control w' with
            | (Returned total, w'') =>
                ([("enabled", JBool true);
                  ("hits", JInt (info_get info "keyspace_hits"));
                  ("misses", JInt (info_get info "keyspace_misses"));
                  ("total_keys", JInt total)], w'')
            | (Raised e, w'') =>
                ([("enabled", JBool true); ("error", JStr e)], w'')
            end
        | (Raised e, w') =>
            ([("enabled", JBool true); ("error", JStr e)], w')
        end
  | None => ([("enabled", JBool false)], w)
  end.

End lifecycle.

(** A store kept in memory: a dict from key to value that never fails and
    never lets an entry expire. *)
Definition memory_client : Redis (gmap string bytes) := {|
  redis_get := λ key store, (Returned (store !! key), store);
  redis_setex := λ key _ value store, (Returned tt, <[key := value]> store);
  redis_exists := λ key store,
    (Returned (match store !! key with Some _ => 1%Z | None => 0%Z end), store)
|}.

End CacheManager.

(** ** The job orchestrator ([app/tasks.py]) *)

Module BackgroundTaskManager.
Import Py.

Abbreviation bytes := (list Byte.byte).

(** The values stored in the task dictionaries. Timestamps and other
    numbers are kept as integers. *)
Inductive pyval :=
| VStr (s : string)
| VInt (z : Z)
| VBool (b : bool)
| VDict (items : list (string * pyval)).

(** [self.pending_tasks] and [self.completed_tasks]: task id to the dict
    of that task. *)
Record manager := Manager {
  pending_tasks : gmap string (gmap string pyval);
  completed_tasks : gmap string (gmap string pyval)
}.

(** [BackgroundTaskManager()] *)
Definition new_manager : manager := Manager ∅ ∅.

Definition get_task_status (self : manager) (task_id : string)
  : option (gmap string pyval) :=
  match pending_tasks self !! task_id with
  | Some task => Some task
  | None => completed_tasks self !! task_id
  end.

(** The awaited calls of [_process_task]. *)
Inductive stage := CacheGet | Preprocess | Vectorize | CacheSet.

Global Instance stage_eq_dec : EqDecision stage.
Proof. solve_decision. Defined.

(** The other components as this job meets them. *)
Record collaborators := {
  generate_cache_key : bytes → pydict → string;
  cache_get : string → outcome (option bytes);
  decode_utf8 : bytes → outcome string;
  preprocess : bytes → json → json → json → outcome (Vectorizer.ndarray * pyval);
  vectorize : Vectorizer.ndarray → json → json → outcome string;
  encode_utf8 : string → bytes;
  cache_set : string → bytes → outcome unit
}.

(** The state threaded through one job: the manager, the managers seen at
    the points where the job hands control back to the event loop, and the
    stages awaited so far. *)
Record run := Run {
  mgr : manager;
  observed : list manager;
  stages : list stage
}.

Definition task (A : Type) : Type := run → outcome A * run.

Global Instance task_ret : MRet task := λ A a r, (Returned a, r).

Global Instance task_bind : MBind task := λ A B k m r,
  match m r with
  | (Returned a, r') => k a r'
  | (Raised e, r') => (Raised e, r')
  end.

(** [try: body except Exception as e: handler(str(e))] *)
Definition try_except {A} (body : task A) (handler : string → task A) : task A :=
  λ r, match body r with
       | (Returned a, r') => (Returned a, r')
       | (Raised e, r') => handler e r'
       end.

(** [await call]: the event loop may run other handlers, which see the
    manager as it is now; then the call returns or raises. *)
Definition await {A} (s : stage) (call : outcome A) : task A :=
  λ r, (call, Run (mgr r) (observed r ++ [mgr r]) (stages r ++ [s])).

(** A call that is not awaited. *)
Definition call {A} (result : outcome A) : task A := λ r, (result, r).

(** [self.pending_tasks[task_id][key] = value] *)
Definition pending_setitem (task_id key : string) (value : pyval) : task unit :=
  λ r, match pending_tasks (mgr r) !! task_id with
       | Some t =>
           (Returned tt,
            Run (Manager (<[task_id := <[key := value]> t]> (pending_tasks (mgr r)))
                         (completed_tasks (mgr r)))
                (observed r) (stages r))
       | None => (Raised "KeyError", r)
       end.

(** [self.completed_tasks[task_id] = record] *)
Definition completed_assign (task_id : string) (record : gmap string pyval)
  : task unit :=
  λ r, (Returned tt,
        Run (Manager (pending_tasks (mgr r))
                     (<[task_id := record]> (completed_tasks (mgr r))))
            (observed r) (stages r)).

(** [if task_id in self.pending_tasks: del self.pending_tasks[task_id]] *)
Definition pending_discard (task_id : string) : task unit :=
  λ r, (Returned tt,
        Run (Manager (delete task_id (pending_tasks (mgr r)))
                     (completed_tasks (mgr r)))
            (observed r) (stages r)).

(** Truth value of [cached_result]. *)
Definition cache_hit (cached : option bytes) : option bytes :=
  match cached with
  | Some (b :: data) => Some (b :: data)
  | _ => None
  end.

Definition _process_task (env : collaborators) (task_id : string)
    (image_data : bytes) (params : pydict) : task unit :=
  try_except
    (pending_setitem task_id "status" (VStr "processing");;
     pending_setitem task_id "progress" (VInt 10);;
     let cache_key := generate_cache_key env image_data params in
     cached_result ← await CacheGet (cache_get env cache_key);
     match cache_hit cached_result with
     | Some data =>
         result ← call (decode_utf8 env data);
         completed_assign task_id
           {[ "status" := VStr "completed"; "result" := VStr result;
              "from_cache" := VBool true ]};;
         pending_discard task_id
     | None =>
         pending_setitem task_id "progress" (VInt 30);;
         ' (image_array, metadata) ←
           await Preprocess
             (preprocess env image_data
                (dict_get params "resize" (JBool true))
                (dict_get params "enhance" (JBool false))
                (dict_get params "threshold" JNull));
         pending_setitem task_id "progress" (VInt 60);;
         svg_result ←
           await Vectorize
             (vectorize env image_array
                (dict_get params "color_mode" (JStr "binary"))
                (dict_get params "simplify" (JBool true)));
         pending_setitem task_id "progress" (VInt 90);;
         await CacheSet (cache_set env cache_key (encode_utf8 env svg_result));;
         completed_assign task_id
           {[ "status" := VStr "completed"; "result" := VStr svg_result;
              "metadata" := metadata; "from_cache" := VBool false ]};;
         pending_discard task_id
     end)
    (λ e,
       completed_assign task_id
         {[ "status" := VStr "failed"; "error" := VStr e ]};;
       pending_discard task_id).

(** [submit_vectorization_task], up to [asyncio.create_task]. *)
Definition submit_vectorization_task (self : manager) (task_id : string) : manager :=
  Manager (<[task_id := {[ "status" := VStr "pending"; "progress" := VInt 0 ]}]>
             (pending_tasks self))
          (completed_tasks self).

(** A submitted job from submission to the end of its task: the manager is
    seen once before the task starts, at every [await], and once the task
    is over. *)
Definition job (env : collaborators) (self : manager) (task_id : string)
    (image_data : bytes) (params : pydict) : run :=
  let submitted := submit_vectorization_task self task_id in
  let r := (_process_task env task_id image_data params
              (Run submitted [submitted] [])).2 in
  Run (mgr r) (observed r ++ [mgr r]) (stages r).

(** The status records a poller of [task_id] gets over the job. *)
Definition statuses (r : run) (task_id : string) : list (option (gmap string pyval)) :=
  (λ m, get_task_status m task_id) <$> observed r.

Definition pending_record : gmap string pyval :=
  {[ "status" := VStr "pending"; "progress" := VInt 0 ]}.

Definition processing_record (progress : Z) : gmap string pyval :=
  {[ "status" := VStr "processing"; "progress" := VInt progress ]}.

(** The three dicts [_process_task] stores in [completed_tasks]. *)
Definition cached_record (result : string) : gmap string pyval :=
  {[ "status" := VStr "completed"; "result" := VStr result;
     "from_cache" := VBool true ]}.

Definition computed_record (result : string) (metadata : pyval) : gmap string pyval :=
  {[ "status" := VStr "completed"; "result" := VStr result;
     "metadata" := metadata; "from_cache" := VBool false ]}.

Definition failed_record (error : string) : gmap string pyval :=
  {[ "status" := VStr "failed"; "error" := VStr error ]}.

(** The ways through [_process_task]: the progress values written while
    processing, the stages awaited, and the dict stored at the end. *)
Inductive job_path : list Z → list stage → gmap string pyval → Prop :=
| path_hit result :
    job_path [10%Z] [CacheGet] (cached_record result)
| path_fail_lookup e :
    job_path [10%Z] [CacheGet] (failed_record e)
| path_fail_preprocess e :
    job_path [10%Z; 30%Z] [CacheGet; Preprocess] (failed_record e)
| path_fail_vectorize e :
    job_path [10%Z; 30%Z; 60%Z] [CacheGet; Preprocess; Vectorize] (failed_record e)
| path_fail_store e :
    job_path [10%Z; 30%Z; 60%Z; 90%Z] [CacheGet; Preprocess; Vectorize; CacheSet]
      (failed_record e)
| path_computed result metadata :
    job_path [10%Z; 30%Z; 60%Z; 90%Z] [CacheGet; Preprocess; Vectorize; CacheSet]
      (computed_record result metadata).

(** The run of a job that took a given path. *)
Definition job_outcome (self : manager) (task_id : string) (progress : list Z)
    (awaited : list stage) (final : gmap string pyval) : run :=
  let finished :=
    Manager (delete task_id (pending_tasks self))
            (<[task_id := final]> (completed_tasks self)) in
  Run finished
      (Manager (<[task_id := pending_record]> (pending_tasks self))
               (completed_tasks self)
       :: ((λ p, Manager (<[task_id := processing_record p]> (pending_tasks self))
                         (completed_tasks self)) <$> progress)
       ++ [finished])
      awaited.

(** Position of a status record in the life of a job. *)
Definition phase_rank (status : option (gmap string pyval)) : nat :=
  match status ≫= (.!! "status") with
  | Some (VStr "pending") => 0
  | Some (VStr "processing") => 1
  | _ => 2
  end.

(** Collaborators of a job whose result is already cached. *)
Definition cached_collaborators : collaborators := {|
  generate_cache_key := λ _ _, "svg:0123456789abcdef";
  cache_get := λ _, Returned (Some [Byte.x3c; Byte.x73; Byte.x76; Byte.x67;
                                    Byte.x2f; Byte.x3e]);
  decode_utf8 := λ data, Returned (String.string_of_list_byte data);
  preprocess := λ _ _ _ _, Raised "not reached";
  vectorize := λ _ _ _, Raised "not reached";
  encode_utf8 := String.list_byte_of_string;
  cache_set := λ _ _, Returned tt
|}.

(** [age > max_age_seconds] for one task dict; a dict without
    ['completed_at'] is passed over. *)
Definition expired (current_time max_age_seconds : Z) (task_data : gmap string pyval)
  : outcome bool :=
  match task_data !! "completed_at" with
  | None => Returned false
  | Some (VInt completed_at) =>
      Returned (bool_decide (max_age_seconds < current_time - completed_at)%Z)
  | Some _ => Raised "TypeError"
  end.

(** The first loop of [cleanup_completed_tasks]. *)
Fixpoint collect_expired (current_time max_age_seconds : Z)
    (items : list (string * gmap string pyval)) (to_remove : list string)
  : outcome (list string) :=
  match items with
  | [] => Returned to_remove
  | (task_id, task_data) :: items' =>
      match expired current_time max_age_seconds task_data with
      | Returned true =>
          collect_expired current_time max_age_seconds items' (to_remove ++ [task_id])
      | Returned false =>
          collect_expired current_time max_age_seconds items' to_remove
      | Raised e => Raised e
      end
  end.

(** [cleanup_completed_tasks]; [current_time] is the reading of
    [time.time()]. *)
Definition cleanup_completed_tasks (self : manager) (max_age_seconds : Z)
    (current_time : Z) : outcome manager :=
  match collect_expired current_time max_age_seconds
          (map_to_list (completed_tasks self)) [] with
  | Returned to_remove =>
      Returned (Manager (pending_tasks self)
                        (foldl (λ completed task_id, delete task_id completed)
                               (completed_tasks self) to_remove))
  | Raised e => Raised e
  end.

(** A finished record whose completion timestamp is older than the limit. *)
Definition is_old (current_time max_age_seconds : Z) (task_data : gmap string pyval)
  : bool :=
  match task_data !! "completed_at" with
  | Some (VInt completed_at) =>
      bool_decide (max_age_seconds < current_time - completed_at)%Z
  | _ => false
  end.

(** Every ['completed_at'] stored in [completed_tasks] is a number. *)
Definition timestamps_numeric (self : manager) : Prop :=
  ∀ task_id task_data v,
    completed_tasks self !! task_id = Some task_data →
    task_data !! "completed_at" = Some v → ∃ t, v = VInt t.

(** A manager holding one record stamped at time 0 and one failed record
    without a stamp. *)
Definition stamped_manager : manager :=
  Manager ∅ (<["a" := {[ "completed_at" := VInt 0 ]}]>
               {[ "b" := failed_record "boom" ]}).



End BackgroundTaskManager.

(** ** The preprocessor ([app/preprocessing.py]) *)

Module Preprocessor.
Import Vectorizer.

(** The last stage of [preprocess]: with a threshold the grayscale array
    becomes [(img_array > threshold).astype(np.uint8) * 255], without one
    it is passed on as it is. *)
Definition threshold_stage (grayscale : ndarray) (threshold : option Z) : ndarray :=
  match threshold with
  | Some t =>
      Ndarray (height grayscale) (width grayscale)
              (λ y x, if bool_decide (t < item grayscale y x)%Z then 255%Z else 0%Z)
  | None => grayscale
  end.

End Preprocessor.

(** ** The HTTP endpoints ([app/main.py]) *)

Module Main.
Import Py.

Abbreviation bytes := (list Byte.byte).
Abbreviation pyval := BackgroundTaskManager.pyval.

(** The body of a [Response]: a [str] or [bytes]. *)
Inductive content :=
| Text (s : string)
| Binary (data : bytes).

(** What a handler hands to the framework: a [Response], a JSON object
    (a [JSONResponse] or a returned dict) or an [HTTPException] that leaves
    the handler. [V] is the type of the values the endpoint puts in. *)
Inductive reply (V : Type) :=
| Response (body : V) (media_type : string) (headers : list (string * string))
| JSONResponse (items : list (string * V))
| HTTPException (status_code : Z) (detail : V).
Global Arguments Response {V} body media_type headers.
Global Arguments JSONResponse {V} items.
Global Arguments HTTPException {V} status_code detail.


(** What a [try] block of a handler can raise: an [HTTPException] of its
    own or any other [Exception], kept as its message. *)
Inductive exn :=
| Error (message : string)
| HTTPError (status_code : Z) (detail : string).

(** The fields of [settings] the handlers read. *)
Record settings := {
  max_upload_size : Z
}.

(** [config.Settings()] without an environment file. *)
Definition default_settings : settings := {| max_upload_size := 52428800 |}.

(** An [UploadFile]: its declared size and what [await file.read()] does. *)
Record upload_file := UploadFile {
  size : option Z;
  read : outcome bytes
}.

(** [file.size and file.size > settings.max_upload_size] *)
Definition oversize (cfg : settings) (file : upload_file) : bool :=
  match size file with
  | Some n => negb (bool_decide (n = 0%Z)) && bool_decide (max_upload_size cfg < n)%Z
  | None => false
  end.

Definition svg_media_type : string := "image/svg+xml".

(** [value == text] for a stored value and a string literal. *)
Definition is_str (value : pyval) (text : string) : bool :=
  match value with
  | BackgroundTaskManager.VStr s => bool_decide (s = text)
  | _ => false
  end.

(** [f"upload:{upload_id}:chunk:{i}"] *)
Definition chunk_key (upload_id : string) (i : Z) : string :=
  "upload:" +:+ upload_id +:+ ":chunk:" +:+ pretty i.

(** [range(total_chunks)] *)
Definition chunk_range (total_chunks : Z) : list Z :=
  Z.of_nat <$> seq 0 (Z.to_nat total_chunks).

Section endpoints.
Context {world : Type}.

(** Library functions: the hash and the JSON string encoder behind the
    cache key, [str.encode('utf-8')], [str(e)] of an [HTTPException] and
    [str] of a dict. *)
Variable xxh64_hexdigest : bytes → string.
Variable encode_basestring : string → string.
Variable encode_utf8 : string → bytes.
Variable http_exception_str : Z → string → string.
Variable dict_str : list (string * pyval) → string.

(** [str(e)] *)
Definition exn_str (e : exn) : string :=
  match e with
  | Error message => message
  | HTTPError status_code detail => http_exception_str status_code detail
  end.

(** [str(value)] *)
Definition py_str (value : pyval) : string :=
  match value with
  | BackgroundTaskManager.VStr s => s
  | BackgroundTaskManager.VInt z => pretty z
  | BackgroundTaskManager.VBool true => "True"
  | BackgroundTaskManager.VBool false => "False"
  | BackgroundTaskManager.VDict items => dict_str items
  end.

(** The components [convert_image] calls. *)
Record services := {
  cache_manager : CacheManager.CacheManager world;
  preprocess : bytes → bool → bool → option Z → outcome (Vectorizer.ndarray * pyval);
  vectorize : Vectorizer.ndarray → string → bool → outcome string
}.

(** The [params] dict of [convert_image]. *)
Definition convert_params (resize enhance : bool) (threshold : option Z)
    (color_mode : string) (simplify : bool) : pydict :=
  [("resize", JBool resize); ("enhance", JBool enhance);
   ("threshold", match threshold with Some t => JInt t | None => JNull end);
   ("color_mode", JStr color_mode); ("simplify", JBool simplify)].

Definition too_large (cfg : settings) : exn :=
  HTTPError 413
    ("File too large. Maximum size: " +:+ pretty (max_upload_size cfg) +:+ " bytes").

(** The [try] block of [convert_image]; [processing_time] is the text of
    [f"{processing_time:.3f}"], a reading of the clock. Without [use_cache]
    there is no lookup and the block goes on as after a miss. *)
Definition convert_image_try (cfg : settings) (env : services) (file : upload_file)
    (resize enhance : bool) (threshold : option Z) (color_mode : string)
    (simplify use_cache : bool) (processing_time : string) (w : world)
  : (reply content + exn) * world :=
  if oversize cfg file then (inr (too_large cfg), w)
  else
    match read file with
    | Raised e => (inr (Error e), w)
    | Returned image_data =>
        let params := convert_params resize enhance threshold color_mode simplify in
        let cache_key :=
          CacheManager.generate_cache_key xxh64_hexdigest encode_basestring
            (cache_manager env) image_data params in
        let lookup :=
          if use_cache then CacheManager.get (cache_manager env) cache_key w
          else (Returned None, w) in
        match lookup with
        | (Raised e, w1) => (inr (Error e), w1)
        | (Returned cached_svg, w1) =>
            match BackgroundTaskManager.cache_hit cached_svg with
            | Some data =>
                (inl (Response (Binary data) svg_media_type [("X-Cache", "HIT")]), w1)
            | None =>
                match preprocess env image_data resize enhance threshold with
                | Raised e => (inr (Error e), w1)
                | Returned (image_array, metadata) =>
                    match vectorize env image_array color_mode simplify with
                    | Raised e => (inr (Error e), w1)
                    | Returned svg_result =>
                        let store :=
                          if use_cache
                          then CacheManager.set (cache_manager env) cache_key
                                 (encode_utf8 svg_result) None w1
                          else (Returned tt, w1) in
                        match store with
                        | (Raised e, w2) => (inr (Error e), w2)
                        | (Returned _, w2) =>
                            (inl (Response (Text svg_result) svg_media_type
                                    [("X-Cache", "MISS");
                                     ("X-Processing-Time", processing_time +:+ "s");
                                     ("X-Metadata", py_str metadata)]), w2)
                        end
                    end
                end
            end
        end
    end.

(** [convert_image]: [except Exception as e] turns whatever the block
    raised into a 500 whose detail is [str(e)]. *)
Definition convert_image (cfg : settings) (env : services) (file : upload_file)
    (resize enhance : bool) (threshold : option Z) (color_mode : string)
    (simplify use_cache : bool) (processing_time : string) (w : world)
  : reply content * world :=
  match convert_image_try cfg env file resize enhance threshold color_mode
          simplify use_cache processing_time w with
  | (inl response, w') => (response, w')
  | (inr e, w') => (HTTPException 500 (Text (exn_str e)), w')
  end.

(** [get_task_result]; a missing key leaves the handler as a [KeyError]. *)
Definition get_task_result (task_manager : BackgroundTaskManager.manager)
    (task_id : string) : outcome (reply pyval) :=
  match BackgroundTaskManager.get_task_status task_manager task_id with
  | None => Returned (HTTPException 404 (BackgroundTaskManager.VStr "Task not found"))
  | Some task_status =>
      match task_status !! "status" with
      | None => Raised "KeyError"
      | Some status =>
          if negb (is_str status "completed") then
            Returned (JSONResponse
                        [("status", status);
                         ("message", BackgroundTaskManager.VStr "Task not yet completed")])
          else
            match task_status !! "error" with
            | Some error => Returned (HTTPException 500 error)
            | None =>
                match task_status !! "result" with
                | None => Raised "KeyError"
                | Some result =>
                    Returned
                      (Response result svg_media_type
                         [("X-Task-ID", task_id);
                          ("X-From-Cache",
                           py_str (default (BackgroundTaskManager.VBool false)
                                     (task_status !! "from_cache")))])
                end
            end
      end
  end.

(** The loop of [upload_chunk] that puts the stored chunks together. *)
Fixpoint gather (cache : CacheManager.CacheManager world) (upload_id : string)
    (indices : list Z) (full_data : bytes) (w : world) : outcome bytes * world :=
  match indices with
  | [] => (Returned full_data, w)
  | i :: rest =>
      match CacheManager.get cache (chunk_key upload_id i) w with
      | (Returned chunk_content, w') =>
          match BackgroundTaskManager.cache_hit chunk_content with
          | Some data => gather cache upload_id rest (full_data ++ data) w'
          | None => gather cache upload_id rest full_data w'
          end
      | (Raised e, w') => (Raised e, w')
      end
  end.

(** The [try] block of [upload_chunk]; [uuid4] is what [str(uuid.uuid4())]
    gives in this call. *)
Definition upload_chunk_try (cache : CacheManager.CacheManager world)
    (chunk : upload_file) (chunk_number total_chunks : Z) (upload_id uuid4 : string)
    (w : world) : (reply json + exn) * world :=
  let upload_id := if bool_decide (upload_id = EmptyString) then uuid4 else upload_id in
  match read chunk with
  | Raised e => (inr (Error e), w)
  | Returned chunk_data =>
      match CacheManager.set cache (chunk_key upload_id chunk_number) chunk_data
              (Some 3600%Z) w with
      | (Raised e, w1) => (inr (Error e), w1)
      | (Returned _, w1) =>
          if bool_decide (chunk_number = total_chunks - 1)%Z then
            match gather cache upload_id (chunk_range total_chunks) [] w1 with
            | (Raised e, w2) => (inr (Error e), w2)
            | (Returned full_data, w2) =>
                (inl (JSONResponse
                        [("status", JStr "complete");
                         ("upload_id", JStr upload_id);
                         ("total_size", JInt (Z.of_nat (length full_data)));
                         ("message", JStr "All chunks received")]), w2)
            end
          else
            (inl (JSONResponse
                    [("status", JStr "partial");
                     ("upload_id", JStr upload_id);
                     ("chunk_number", JInt chunk_number);
                     ("total_chunks", JInt total_chunks)]), w1)
      end
  end.

Definition upload_chunk (cache : CacheManager.CacheManager world)
    (chunk : upload_file) (chunk_number total_chunks : Z) (upload_id uuid4 : string)
    (w : world) : reply json * world :=
  match upload_chunk_try cache chunk chunk_number total_chunks upload_id uuid4 w with
  | (inl response, w') => (response, w')
  | (inr e, w') => (HTTPException 500 (JStr (exn_str e)), w')
  end.

(** The reply to the last chunk of an upload that put [total_size] bytes
    together. *)
Definition complete_reply (upload_id : string) (total_size : nat) : reply json :=
  JSONResponse
    [("status", JStr "complete"); ("upload_id", JStr upload_id);
     ("total_size", JInt (Z.of_nat total_size));
     ("message", JStr "All chunks received")].

Definition partial_reply (upload_id : string) (chunk_number total_chunks : Z)
  : reply json :=
  JSONResponse
    [("status", JStr "partial"); ("upload_id", JStr upload_id);
     ("chunk_number", JInt chunk_number); ("total_chunks", JInt total_chunks)].

(** A client that sends the chunks of [chunks] one request after the other,
    numbered from [first], with the same [upload_id] parameter: the replies
    it gets. [uuid4 i] is what [str(uuid.uuid4())] gives in the request for
    chunk [i]. *)
Fixpoint upload_session (cache : CacheManager.CacheManager world)
    (upload_id : string) (uuid4 : Z → string) (total_chunks : Z) (first : Z)
    (chunks : list bytes) (w : world) : list (reply json) * world :=
  match chunks with
  | [] => ([], w)
  | chunk_data :: rest =>
      let '(response, w1) :=
        upload_chunk cache (UploadFile None (Returned chunk_data)) first total_chunks
          upload_id (uuid4 first) w in
      let '(responses, w2) :=
        upload_session cache upload_id uuid4 total_chunks (first + 1)%Z rest w1 in
      (response :: responses, w2)
  end.

End endpoints.

(** A cache layer that is connected to a store kept in memory. *)
Definition memory_cache : CacheManager.CacheManager (gmap string bytes) :=
  CacheManager.Build_CacheManager _ true 3600 (Some CacheManager.memory_client).

(** A cache layer that was switched off, as [connect] leaves it when the
    server cannot be reached. *)
Definition offline_cache : CacheManager.CacheManager unit :=
  CacheManager.Build_CacheManager _ false 3600 (Some CacheManager.failing_client).

(** The bytes the store holds for chunk [i] of an upload; nothing when the
    key is missing. *)
Definition stored (store : gmap string bytes) (upload_id : string) (i : Z) : bytes :=
  default [] (store !! chunk_key upload_id i).

(** A service on the store kept in memory whose preprocessor and vectorizer
    always return. *)
Definition example_services : services (world:=gmap string bytes) := {|
  cache_manager := memory_cache;
  preprocess := λ _ _ _ _,
    Returned (Vectorizer.lone_pixel, BackgroundTaskManager.VDict []);
  vectorize := λ _ _ _, Returned "<svg></svg>"
|}.

Definition example_file : upload_file :=
  UploadFile (Some 3%Z) (Returned [Byte.x01; Byte.x02; Byte.x03]).

End Main.

(** * Properties of the vectorization engine *)

(** ** The whole-document binary encoder *)

Section binary_encoder.
Import Vectorizer.

Lemma unreached_not_visited v y x : unreached v y x → is_visited v y x = false.
Proof.
  intros Hv. unfold is_visited. apply bool_decide_eq_false. intros Hin.
  destruct (Hv _ _ Hin) as [?|[_ ?]]; lia.
Qed.

Lemma unreached_mark v y x : unreached v y x → unreached ({[(y, x)]} ∪ v) y (S x).
Proof.
  intros Hv y' x' [Hin|Hin]%elem_of_union.
  - apply elem_of_singleton in Hin. injection Hin as -> ->. right. lia.
  - destruct (Hv _ _ Hin) as [?|[? ?]]; [left|right]; lia.
Qed.

Lemma unreached_mono v (y x y2 x2 : nat) :
  unreached v y x → y < y2 ∨ (y = y2 ∧ x ≤ x2) → unreached v y2 x2.
Proof.
  intros Hv Hle y' x' Hin. destruct (Hv _ _ Hin) as [?|[? ?]]; lia.
Qed.

(** On unreached cells the marking loop advances exactly like the plain
    run-skipping loop. *)
Lemma mark_run_skip_run fuel a y x v :
  unreached v y x →
  ∃ v', mark_run fuel a y x v = (skip_run fuel a y x, v')
        ∧ unreached v' y (skip_run fuel a y x).
Proof.
  revert x v. induction fuel as [|fuel IH]; intros x v Hv; simpl.
  - eauto.
  - rewrite (unreached_not_visited _ _ _ Hv), andb_true_r.
    destruct (bool_decide (x < width a) && binary a y x); [|eauto].
    apply IH. by apply unreached_mark.
Qed.

Lemma skip_run_ge fuel a y (x : nat) : x ≤ skip_run fuel a y x.
Proof.
  revert x. induction fuel as [|fuel IH]; intros x; simpl; [lia|].
  destruct (bool_decide (x < width a) && binary a y x); [|lia].
  specialize (IH (S x)). lia.
Qed.

Lemma skip_run_le fuel a y (x : nat) : x ≤ width a → skip_run fuel a y x ≤ width a.
Proof.
  revert x. induction fuel as [|fuel IH]; intros x Hx; simpl; [lia|].
  destruct (bool_decide (x < width a)) eqn:Hlt; simpl; [|lia].
  apply bool_decide_eq_true in Hlt.
  destruct (binary a y x); [|lia]. apply IH. lia.
Qed.

Lemma skip_run_dark fuel a y (x i : nat) :
  x ≤ i < skip_run fuel a y x → binary a y i = true.
Proof.
  revert x. induction fuel as [|fuel IH]; intros x; simpl; [lia|].
  destruct (bool_decide (x < width a)); simpl; [|lia].
  destruct (binary a y x) eqn:Hb; [|lia].
  intros Hi. destruct (decide (i = x)) as [->|]; [done|]. apply (IH (S x)). lia.
Qed.

Lemma skip_run_stop (fuel : nat) a y (x : nat) :
  width a - x ≤ fuel → skip_run fuel a y x < width a →
  binary a y (skip_run fuel a y x) = false.
Proof.
  revert x. induction fuel as [|fuel IH]; intros x Hf; simpl.
  - lia.
  - destruct (bool_decide (x < width a)) eqn:Hlt; simpl.
    + destruct (binary a y x) eqn:Hb; [|done]. apply IH. lia.
    + apply bool_decide_eq_false in Hlt. lia.
Qed.

Lemma skip_run_step fuel a y (x : nat) :
  x < width a → binary a y x = true → x < skip_run (S fuel) a y x.
Proof.
  intros Hx Hb. simpl. rewrite bool_decide_eq_true_2, Hb by done. simpl.
  pose proof (skip_run_ge fuel a y (S x)). lia.
Qed.

(** The row scan computes [row_rects] and leaves every later cell unmarked. *)
Lemma scan_row_row_rects fuel a simplify y x v paths :
  unreached v y x →
  ∃ v', scan_row fuel a simplify y x v paths
          = (v', paths ++ row_rects fuel a simplify y x)
        ∧ unreached v' (S y) 0.
Proof.
  revert x v paths. induction fuel as [|fuel IH]; intros x v paths Hv; simpl.
  - exists v. rewrite app_nil_r. split; [done|].
    eapply unreached_mono; [done|lia].
  - destruct (bool_decide (x < width a)).
    + rewrite (unreached_not_visited _ _ _ Hv), andb_true_r.
      destruct (binary a y x).
      * destruct (mark_run_skip_run (width a - x) a y x v Hv) as (v' & -> & Hv').
        destruct (IH _ _ (paths ++ emit_run simplify y x (skip_run (width a - x) a y x)) Hv')
          as (v'' & -> & Hv'').
        exists v''. by rewrite <-app_assoc.
      * apply IH. eapply unreached_mono; [done|lia].
    + exists v. rewrite app_nil_r. split; [done|].
      eapply unreached_mono; [done|lia].
Qed.

Lemma scan_rows_row_rects a simplify n y0 v paths :
  unreached v y0 0 →
  (scan_rows a simplify (seq y0 n) (v, paths)).2
  = paths ++ flat_map (λ y, row_rects (width a) a simplify y 0) (seq y0 n).
Proof.
  revert y0 v paths. induction n as [|n IH]; intros y0 v paths Hv; simpl.
  - by rewrite app_nil_r.
  - destruct (scan_row_row_rects (width a) a simplify y0 0 v paths Hv)
      as (v' & Heq & Hv').
    unfold scan_rows in *. simpl. rewrite Heq.
    rewrite (IH (S y0) v' _ Hv'). by rewrite <-app_assoc.
Qed.

(** The whole-document encoder, row by row, without the bookkeeping. *)
Lemma binary_rects_rows a simplify :
  binary_rects a simplify
  = flat_map (λ y, row_rects (width a) a simplify y 0) (seq 0 (height a)).
Proof.
  unfold binary_rects. rewrite scan_rows_row_rects; [done|].
  intros y' x' Hin. by apply elem_of_empty in Hin.
Qed.

End binary_encoder.

(** ** Coverage of the binary encoder *)

Section binary_coverage.
Import Vectorizer.

Lemma cover_count_app rs1 rs2 x y :
  cover_count (rs1 ++ rs2) x y = cover_count rs1 x y + cover_count rs2 x y.
Proof. induction rs1 as [|r rs1 IH]; simpl; [done|]. rewrite IH. lia. Qed.

Lemma cover_count_pos rs x y :
  0 < cover_count rs x y ↔ ∃ r, r ∈ rs ∧ covers r x y = true.
Proof.
  induction rs as [|r rs IH]; simpl.
  - split; [lia|]. intros (r & Hr & _). by apply elem_of_nil in Hr.
  - split.
    + destruct (covers r x y) eqn:Hc.
      * intros _. exists r. split; [left|done].
      * intros Hpos. destruct IH as [IH _].
        destruct IH as (r' & Hr' & Hc'); [lia|]. exists r'. split; [by right|done].
    + intros (r' & [->|Hr']%elem_of_cons & Hc').
      * rewrite Hc'. lia.
      * destruct IH as [_ IH]. specialize (IH (ex_intro _ r' (conj Hr' Hc'))). lia.
Qed.

Lemma covers_spec r x y :
  covers r x y = true ↔ (rx r ≤ x < rx r + rw r) ∧ (ry r ≤ y < ry r + rh r).
Proof.
  unfold covers. rewrite andb_true_iff, !bool_decide_eq_true. done.
Qed.

Lemma cover_count_units (y xs n px py : nat) :
  cover_count ((λ xi, Rect xi y 1 1 "black") <$> seq xs n) px py
  = if bool_decide (py = y ∧ xs ≤ px < xs + n) then 1 else 0.
Proof.
  revert xs. induction n as [|n IH]; intros xs; simpl.
  - case_bool_decide; [lia|done].
  - rewrite IH. unfold covers. simpl.
    repeat case_bool_decide; simpl; lia.
Qed.

Lemma cover_count_emit_run simplify (y xs xe px py : nat) :
  xs ≤ xe →
  cover_count (emit_run simplify y xs xe) px py
  = if bool_decide (py = y ∧ xs ≤ px < xe) then 1 else 0.
Proof.
  intros Hle. unfold emit_run.
  destruct (simplify && bool_decide (1 < xe - xs)).
  - simpl. unfold covers. simpl. repeat case_bool_decide; simpl; lia.
  - rewrite cover_count_units. repeat case_bool_decide; lia.
Qed.

Lemma cover_count_row_rects (fuel : nat) a simplify (y x px py : nat) :
  width a - x ≤ fuel →
  cover_count (row_rects fuel a simplify y x) px py
  = if bool_decide (py = y ∧ x ≤ px < width a) && binary a py px then 1 else 0.
Proof.
  revert x. induction fuel as [|fuel IH]; intros x Hfuel; simpl.
  - rewrite bool_decide_eq_false_2 by lia. done.
  - case_bool_decide as Hx; [|by rewrite bool_decide_eq_false_2 by lia].
    destruct (binary a y x) eqn:Hb.
    + pose proof (skip_run_step (width a - x - 1) a y x Hx Hb) as Hgt.
      replace (S (width a - x - 1)) with (width a - x) in Hgt by lia.
      pose proof (skip_run_le (width a - x) a y x ltac:(lia)) as Hle.
      pose proof (skip_run_dark (width a - x) a y x px) as Hdark.
      set (xe := skip_run (width a - x) a y x) in *.
      rewrite cover_count_app, cover_count_emit_run, IH by lia.
      destruct (decide (py = y)) as [->|Hy].
      * destruct (decide (x ≤ px < xe)) as [Hin|Hout].
        -- rewrite (Hdark Hin).
           rewrite (bool_decide_eq_true_2 (y = y ∧ x ≤ px < xe)) by done.
           rewrite (bool_decide_eq_false_2 (y = y ∧ xe ≤ px < width a)) by lia.
           rewrite (bool_decide_eq_true_2 (y = y ∧ x ≤ px < width a)) by lia.
           done.
        -- rewrite (bool_decide_eq_false_2 (y = y ∧ x ≤ px < xe)) by lia.
           simpl. repeat case_bool_decide; try done; lia.
      * rewrite !bool_decide_eq_false_2 by lia. done.
    + rewrite IH by lia.
      destruct (decide (py = y ∧ px = x)) as [[-> ->]|Hne].
      * rewrite Hb, !andb_false_r. done.
      * repeat case_bool_decide; try done; lia.
Qed.

Lemma cover_count_rows a simplify (y0 n px py : nat) :
  cover_count (flat_map (λ y, row_rects (width a) a simplify y 0) (seq y0 n)) px py
  = if bool_decide (y0 ≤ py < y0 + n ∧ px < width a) && binary a py px
    then 1 else 0.
Proof.
  revert y0. induction n as [|n IH]; intros y0; simpl.
  - rewrite bool_decide_eq_false_2 by lia. done.
  - rewrite cover_count_app, cover_count_row_rects, IH by lia.
    destruct (binary a py px); rewrite ?andb_false_r, ?andb_true_r; [|done].
    repeat case_bool_decide; lia.
Qed.

Local Ltac solve_shape := destruct_and?; split_and?; (done || lia).

Lemma emit_run_shape simplify y xs xe r :
  r ∈ emit_run simplify y xs xe →
  ry r = y ∧ rh r = 1 ∧ rfill r = "black" ∧ 0 < rw r
  ∧ xs ≤ rx r ∧ rx r + rw r ≤ xe.
Proof.
  unfold emit_run. destruct (simplify && bool_decide (1 < xe - xs)) eqn:Hs.
  - intros ->%list_elem_of_singleton. simpl.
    apply andb_true_iff in Hs as [_ Hlen%bool_decide_eq_true]. solve_shape.
  - intros (xi & -> & Hxi)%list_elem_of_fmap. simpl.
    apply elem_of_seq in Hxi. solve_shape.
Qed.

Lemma row_rects_shape fuel a simplify y (x : nat) r :
  r ∈ row_rects fuel a simplify y x →
  ry r = y ∧ rh r = 1 ∧ rfill r = "black" ∧ 0 < rw r
  ∧ x ≤ rx r ∧ rx r + rw r ≤ width a.
Proof.
  revert x. induction fuel as [|fuel IH]; intros x; simpl.
  - by intros ?%elem_of_nil.
  - case_bool_decide as Hx; [|by intros ?%elem_of_nil].
    destruct (binary a y x) eqn:Hb.
    + pose proof (skip_run_ge (width a - x) a y x).
      pose proof (skip_run_le (width a - x) a y x ltac:(lia)).
      intros [Hr|Hr]%elem_of_app.
      * apply emit_run_shape in Hr. solve_shape.
      * apply IH in Hr. solve_shape.
    + intros Hr%IH. solve_shape.
Qed.

Lemma binary_rects_shape a simplify r :
  r ∈ binary_rects a simplify →
  ry r < height a ∧ rh r = 1 ∧ rfill r = "black" ∧ 0 < rw r
  ∧ rx r + rw r ≤ width a.
Proof.
  rewrite binary_rects_rows. intros Hr.
  apply list_elem_of_In, in_flat_map in Hr as (y & Hy & Hr).
  apply list_elem_of_In in Hr. apply row_rects_shape in Hr.
  apply in_seq in Hy. solve_shape.
Qed.

Lemma vectorize_rects_binary a simplify :
  vectorize_rects a "binary" simplify = binary_rects a simplify.
Proof. done. Qed.

Lemma cover_count_binary_rects a simplify x y :
  cover_count (binary_rects a simplify) x y = if dark a x y then 1 else 0.
Proof.
  rewrite binary_rects_rows, cover_count_rows. unfold dark.
  destruct (binary a y x); rewrite ?andb_false_r, ?andb_true_r; [|done].
  repeat case_bool_decide; simpl; try done; lia.
Qed.

(** C1. Binary-mode coverage invariant: whatever [simplify] is, every pixel
    of the grid that is strictly below 128 is covered by exactly one of the
    rectangles the whole-document encoder emits in binary mode and every
    other pixel by none, so that the covered set is exactly the dark set;
    and every emitted rectangle has height 1, so none spans two rows. *)
Theorem binary_coverage_invariant (a : ndarray) (simplify : bool) :
  (∀ x y, cover_count (vectorize_rects a "binary" simplify) x y
          = if dark a x y then 1 else 0)
  ∧ (∀ x y, (∃ r, r ∈ vectorize_rects a "binary" simplify ∧ covers r x y = true)
            ↔ dark a x y = true)
  ∧ Forall (λ r, rh r = 1) (vectorize_rects a "binary" simplify).
Proof.
  rewrite vectorize_rects_binary.
  split; [apply cover_count_binary_rects|]. split.
  - intros x y. rewrite <-cover_count_pos, cover_count_binary_rects.
    destruct (dark a x y); split; (done || lia).
  - apply Forall_forall. intros r Hr. apply binary_rects_shape in Hr. tauto.
Qed.

End binary_coverage.

(** ** Run encoding of the binary encoder *)

Section binary_runs.
Import Vectorizer.

Lemma elem_of_emit_run simplify (y xs xe : nat) r :
  r ∈ emit_run simplify y xs xe ↔
    (simplify = true ∧ 1 < xe - xs ∧ r = Rect xs y (xe - xs) 1 "black")
    ∨ ((simplify = false ∨ xe - xs ≤ 1)
       ∧ ∃ xi, xs ≤ xi < xe ∧ r = Rect xi y 1 1 "black").
Proof.
  unfold emit_run. destruct simplify; simpl.
  - case_bool_decide as Hlen.
    + rewrite list_elem_of_singleton. split; [by left; eauto|].
      intros [(_ & _ & ->)|([?|?] & _)]; [done|done|lia].
    + rewrite list_elem_of_fmap. split.
      * intros (xi & -> & Hxi%elem_of_seq). right. split; [right; lia|].
        exists xi. split; [lia|done].
      * intros [(_ & ? & _)|(_ & xi & Hxi & ->)]; [lia|].
        exists xi. split; [done|]. apply elem_of_seq. lia.
  - rewrite list_elem_of_fmap. split.
    + intros (xi & -> & Hxi%elem_of_seq). right. split; [by left|].
      exists xi. split; [lia|done].
    + intros [(? & _)|(_ & xi & Hxi & ->)]; [done|].
      exists xi. split; [done|]. apply elem_of_seq. lia.
Qed.

Lemma skip_run_maximal a (y x : nat) :
  x < width a → binary a y x = true → run_boundary a y x →
  maximal_run a y x (skip_run (width a - x) a y x).
Proof.
  intros Hx Hb Hbd.
  pose proof (skip_run_step (width a - x - 1) a y x Hx Hb) as Hgt.
  replace (S (width a - x - 1)) with (width a - x) in Hgt by lia.
  pose proof (skip_run_le (width a - x) a y x ltac:(lia)) as Hle.
  split_and!; try lia.
  - intros i Hi. by eapply skip_run_dark.
  - destruct Hbd as [?|[?|[?|?]]]; [by left|lia|by right|congruence].
  - destruct (decide (skip_run (width a - x) a y x = width a)) as [?|Hne];
      [by left|right].
    apply skip_run_stop; lia.
Qed.

Lemma maximal_run_end_unique a (y xs xe1 xe2 : nat) :
  maximal_run a y xs xe1 → maximal_run a y xs xe2 → xe1 = xe2.
Proof.
  intros (Hr1 & Hd1 & _ & He1) (Hr2 & Hd2 & _ & He2).
  destruct (Nat.lt_trichotomy xe1 xe2) as [Hlt|[?|Hlt]]; [|done|].
  - destruct He1 as [?|He1]; [lia|]. rewrite Hd2 in He1 by lia. done.
  - destruct He2 as [?|He2]; [lia|]. rewrite Hd1 in He2 by lia. done.
Qed.

Lemma maximal_run_apart a (y xs1 xe1 xs2 xe2 : nat) :
  maximal_run a y xs1 xe1 → maximal_run a y xs2 xe2 → xs1 < xs2 → xe1 < xs2.
Proof.
  intros (Hr1 & Hd1 & _ & _) (Hr2 & _ & Hs2 & _) Hlt.
  destruct Hs2 as [?|Hs2]; [lia|].
  destruct (decide (xe1 < xs2)) as [?|Hge]; [done|].
  rewrite Hd1 in Hs2 by lia. done.
Qed.

Lemma elem_of_row_rects (fuel : nat) a simplify (y x : nat) r :
  width a - x ≤ fuel → run_boundary a y x →
  r ∈ row_rects fuel a simplify y x ↔
    ∃ xs xe, x ≤ xs ∧ maximal_run a y xs xe ∧ r ∈ emit_run simplify y xs xe.
Proof.
  revert x. induction fuel as [|fuel IH]; intros x Hfuel Hbd; simpl.
  - split; [by intros ?%elem_of_nil|].
    intros (xs & xe & ? & (? & _) & _). lia.
  - case_bool_decide as Hx.
    2:{ split; [by intros ?%elem_of_nil|].
        intros (xs & xe & ? & (? & _) & _). lia. }
    destruct (binary a y x) eqn:Hb.
    + pose proof (skip_run_maximal a y x Hx Hb Hbd) as Hmax.
      set (xe := skip_run (width a - x) a y x) in *.
      assert (Hbd' : run_boundary a y xe).
      { destruct Hmax as (_ & _ & _ & [?|?]); unfold run_boundary; [lia|tauto]. }
      assert (x < xe) by (destruct Hmax; lia).
      rewrite elem_of_app, IH by (done || lia). split.
      * intros [Hr|(xs & xe' & Hge & Hrun & Hr)].
        -- exists x, xe. done.
        -- exists xs, xe'. split; [lia|done].
      * intros (xs & xe' & Hge & Hrun & Hr).
        destruct (decide (xs = x)) as [->|Hne].
        -- left. by rewrite (maximal_run_end_unique _ _ _ _ _ Hmax Hrun).
        -- right. exists xs, xe'. split; [|done].
           pose proof (maximal_run_apart _ _ _ _ _ _ Hmax Hrun). lia.
    + rewrite IH; [|lia|].
      2:{ unfold run_boundary. replace (S x - 1) with x by lia. tauto. }
      split.
      * intros (xs & xe' & Hge & Hrun & Hr). exists xs, xe'. split; [lia|done].
      * intros (xs & xe' & Hge & Hrun & Hr). exists xs, xe'. split; [|done].
        destruct (decide (xs = x)) as [->|]; [|lia].
        destruct Hrun as (? & Hd & _). rewrite Hd in Hb by lia. done.
Qed.

Lemma elem_of_binary_rects a simplify r :
  r ∈ binary_rects a simplify ↔
    ∃ y xs xe, y < height a ∧ maximal_run a y xs xe
               ∧ r ∈ emit_run simplify y xs xe.
Proof.
  rewrite binary_rects_rows, list_elem_of_In, in_flat_map. split.
  - intros (y & Hy%in_seq & Hr%list_elem_of_In).
    apply elem_of_row_rects in Hr as (xs & xe & _ & Hrun & Hr);
      [|lia|by left].
    exists y, xs, xe. split; [lia|done].
  - intros (y & xs & xe & Hy & Hrun & Hr). exists y. split; [apply in_seq; lia|].
    apply list_elem_of_In, elem_of_row_rects; [lia|by left|].
    exists xs, xe. split; [lia|done].
Qed.

(** Rectangles of positive size that never overlap are pairwise distinct. *)
Lemma NoDup_of_cover_count rs :
  (∀ r, r ∈ rs → 0 < rw r ∧ 0 < rh r) →
  (∀ x y, cover_count rs x y ≤ 1) →
  NoDup rs.
Proof.
  induction rs as [|r rs IH]; intros Hpos Hcount; [constructor|].
  constructor.
  - intros Hin.
    assert (Hc : covers r (rx r) (ry r) = true).
    { apply covers_spec. destruct (Hpos r) as [??]; [left|lia]. }
    specialize (Hcount (rx r) (ry r)). simpl in Hcount. rewrite Hc in Hcount.
    assert (0 < cover_count rs (rx r) (ry r)); [|lia].
    apply cover_count_pos. eauto.
  - apply IH.
    + intros r' Hr'. apply Hpos. by right.
    + intros x y. specialize (Hcount x y). simpl in Hcount. lia.
Qed.

Lemma binary_rects_NoDup a simplify : NoDup (binary_rects a simplify).
Proof.
  apply NoDup_of_cover_count.
  - intros r Hr%binary_rects_shape. lia.
  - intros x y. rewrite cover_count_binary_rects. destruct (dark a x y); lia.
Qed.

(** C6. Binary-mode run encoding: the rectangles emitted in binary mode are
    exactly these: for every maximal contiguous run of dark pixels of a row,
    one rectangle of the run's width and height 1 when [simplify] is true and
    the run is longer than 1, and otherwise ([simplify] false, or a run of
    length 1) one unit rectangle per dark pixel of the run; no rectangle is
    emitted twice. On the 100 by 100 white image with the black square at
    (20,20)-(80,80), with [simplify] true, this gives exactly 60 rectangles
    of width 60 and height 1 at x = 20, for y = 20 .. 79. *)
Theorem binary_run_encoding (a : ndarray) (simplify : bool) :
  (∀ r, r ∈ vectorize_rects a "binary" simplify ↔
     ∃ y xs xe, y < height a ∧ maximal_run a y xs xe ∧
       ((simplify = true ∧ 1 < xe - xs ∧ r = Rect xs y (xe - xs) 1 "black")
        ∨ ((simplify = false ∨ xe - xs = 1)
           ∧ ∃ xi, xs ≤ xi < xe ∧ r = Rect xi y 1 1 "black")))
  ∧ NoDup (vectorize_rects a "binary" simplify)
  ∧ vectorize_rects black_square_100 "binary" true
    = (λ y, Rect 20 y 60 1 "black") <$> seq 20 60
  ∧ length (vectorize_rects black_square_100 "binary" true) = 60.
Proof.
  rewrite !vectorize_rects_binary. split_and!.
  - intros r. rewrite elem_of_binary_rects. split.
    + intros (y & xs & xe & Hy & Hrun & Hr). exists y, xs, xe.
      split_and!; [done..|].
      apply elem_of_emit_run in Hr as [?|([?|?] & ?)]; [by left|right..].
      * split; [by left|done].
      * split; [right; destruct Hrun; lia|done].
    + intros (y & xs & xe & Hy & Hrun & Hr). exists y, xs, xe.
      split_and!; [done..|].
      apply elem_of_emit_run. destruct Hr as [?|([?|?] & ?)]; [by left|right..].
      * split; [by left|done].
      * split; [right; lia|done].
  - apply binary_rects_NoDup.
  - rewrite binary_rects_rows. vm_compute. reflexivity.
  - rewrite binary_rects_rows. vm_compute. reflexivity.
Qed.

End binary_runs.

(** ** The grayscale encoder *)

Section grayscale.
Import Vectorizer.

Lemma ceil_div_gt (n step i : nat) :
  0 < step → i < (n + step - 1) / step ↔ i * step < n.
Proof.
  intros Hstep. split.
  - intros Hi. destruct (decide (i * step < n)) as [?|Hge]; [done|].
    assert ((n + step - 1) / step < S i); [|lia].
    apply Nat.Div0.div_lt_upper_bound. lia.
  - intros Hi. assert (S i ≤ (n + step - 1) / step); [|lia].
    apply Nat.div_le_lower_bound; lia.
Qed.

Lemma elem_of_py_range (stop step x : nat) :
  0 < step → x ∈ py_range stop step ↔ x < stop ∧ Nat.divide step x.
Proof.
  intros Hstep. unfold py_range. rewrite list_elem_of_fmap. split.
  - intros (i & -> & Hi%elem_of_seq). split.
    + apply ceil_div_gt; [done|lia].
    + by exists i.
  - intros (Hx & i & ->). exists i. split; [done|].
    apply elem_of_seq. split; [lia|]. simpl. by apply ceil_div_gt.
Qed.

Lemma NoDup_py_range (stop step : nat) : 0 < step → NoDup (py_range stop step).
Proof.
  intros Hstep. unfold py_range. apply NoDup_fmap_2_strong; [|apply NoDup_seq].
  intros i j _ _ Heq. nia.
Qed.

Lemma length_py_range (stop step : nat) :
  length (py_range stop step) = (stop + step - 1) / step.
Proof. unfold py_range. by rewrite length_fmap, length_seq. Qed.

Lemma grayscale_step_pos simplify : 0 < grayscale_step simplify.
Proof. destruct simplify; simpl; lia. Qed.

Lemma vectorize_rects_grayscale a simplify :
  vectorize_rects a "grayscale" simplify = grayscale_rects a simplify.
Proof. done. Qed.

Lemma elem_of_grayscale_rects a simplify r :
  r ∈ grayscale_rects a simplify ↔
    ∃ x y, x < width a ∧ y < height a
           ∧ Nat.divide (grayscale_step simplify) x
           ∧ Nat.divide (grayscale_step simplify) y
           ∧ r = Rect x y (grayscale_step simplify) (grayscale_step simplify)
                   (rgb (item a y x)).
Proof.
  pose proof (grayscale_step_pos simplify) as Hstep.
  unfold grayscale_rects. rewrite list_elem_of_bind. split.
  - intros (y & (x & ->%list_elem_of_singleton & Hx)%list_elem_of_bind & Hy).
    apply elem_of_py_range in Hx as [??]; [|done].
    apply elem_of_py_range in Hy as [??]; [|done].
    exists x, y. done.
  - intros (x & y & Hx & Hy & Hdx & Hdy & ->). exists y. split.
    + apply list_elem_of_bind. exists x. split; [by apply list_elem_of_singleton|].
      by apply elem_of_py_range.
    + by apply elem_of_py_range.
Qed.

Lemma NoDup_grayscale_rects a simplify : NoDup (grayscale_rects a simplify).
Proof.
  pose proof (grayscale_step_pos simplify) as Hstep.
  unfold grayscale_rects. apply NoDup_bind; [| |by apply NoDup_py_range].
  - intros y1 y2 r _ _
      (x1 & ->%list_elem_of_singleton & _)%list_elem_of_bind
      (x2 & Heq%list_elem_of_singleton & _)%list_elem_of_bind.
    congruence.
  - intros y _. apply NoDup_bind; [| |by apply NoDup_py_range].
    + intros x1 x2 r _ _ ->%list_elem_of_singleton Heq%list_elem_of_singleton.
      congruence.
    + intros x _. apply NoDup_singleton.
Qed.

Lemma length_bind_const {A B} (f : A → list B) (l : list A) (n : nat) :
  (∀ x, length (f x) = n) → length (l ≫= f) = length l * n.
Proof.
  intros Hf. induction l as [|x l IH]; [done|].
  rewrite bind_cons, length_app, Hf, IH. simpl. lia.
Qed.

Lemma length_grayscale_rects a simplify :
  length (grayscale_rects a simplify)
  = ((height a + grayscale_step simplify - 1) / grayscale_step simplify)
    * ((width a + grayscale_step simplify - 1) / grayscale_step simplify).
Proof.
  unfold grayscale_rects.
  rewrite (length_bind_const _ _
             ((width a + grayscale_step simplify - 1) / grayscale_step simplify)).
  - by rewrite length_py_range.
  - intros y. rewrite (length_bind_const _ _ 1); [|done].
    rewrite length_py_range. lia.
Qed.

(** C5. Grayscale sub-sampling: the stride is 2 when [simplify] is true and
    1 otherwise; the rectangles emitted in grayscale mode are exactly, for
    every position (x, y) of the grid whose coordinates are multiples of the
    stride, one square of side stride placed at (x, y) and filled with the
    intensity of the pixel at (x, y) itself; so a 50 by 50 grid with
    [simplify] true gives 25 rows of 25 squares of side 2. *)
Theorem grayscale_subsampling (a : ndarray) (simplify : bool) :
  grayscale_step simplify = (if simplify then 2 else 1)
  ∧ (∀ r, r ∈ vectorize_rects a "grayscale" simplify ↔
       ∃ x y, x < width a ∧ y < height a
              ∧ Nat.divide (grayscale_step simplify) x
              ∧ Nat.divide (grayscale_step simplify) y
              ∧ r = Rect x y (grayscale_step simplify) (grayscale_step simplify)
                      (rgb (item a y x)))
  ∧ NoDup (vectorize_rects a "grayscale" simplify)
  ∧ (∀ px : nat → nat → Z,
       vectorize_rects (Ndarray 50 50 px) "grayscale" true
       = j ← seq 0 25; i ← seq 0 25;
         [Rect (2 * i) (2 * j) 2 2 (rgb (px (2 * j) (2 * i)))])
  ∧ (∀ px : nat → nat → Z,
       length (vectorize_rects (Ndarray 50 50 px) "grayscale" true) = 25 * 25).
Proof.
  rewrite vectorize_rects_grayscale. split_and!.
  - done.
  - apply elem_of_grayscale_rects.
  - apply NoDup_grayscale_rects.
  - intros px. rewrite vectorize_rects_grayscale. reflexivity.
  - intros px. rewrite vectorize_rects_grayscale, length_grayscale_rects.
    reflexivity.
Qed.

(** C10 (as amended). Grayscale rectangles overrun the declared bounds: on a
    grid of odd width with at least one row, grayscale mode with [simplify]
    true emits a square of side 2 sampled at the last column, whose right
    edge lies beyond the width written in the root element; likewise, on a
    grid of odd height with at least one column, a square sampled at the
    last row reaches below the declared height. *)
Theorem grayscale_overrun (a : ndarray) :
  (Nat.Odd (width a) → 0 < height a →
     ∃ r, r ∈ vectorize_rects a "grayscale" true
          ∧ rx r = width a - 1 ∧ rw r = 2 ∧ width a < rx r + rw r)
  ∧ (Nat.Odd (height a) → 0 < width a →
     ∃ r, r ∈ vectorize_rects a "grayscale" true
          ∧ ry r = height a - 1 ∧ rh r = 2 ∧ height a < ry r + rh r).
Proof.
  rewrite vectorize_rects_grayscale. split.
  - intros [k Hk] Hh.
    exists (Rect (width a - 1) 0 2 2 (rgb (item a 0 (width a - 1)))).
    split; [|simpl; lia].
    apply elem_of_grayscale_rects. exists (width a - 1), 0. simpl.
    split_and!; [lia|lia|exists k; lia|exists 0; lia|done].
  - intros [k Hk] Hw.
    exists (Rect 0 (height a - 1) 2 2 (rgb (item a (height a - 1) 0))).
    split; [|simpl; lia].
    apply elem_of_grayscale_rects. exists 0, (height a - 1). simpl.
    split_and!; [lia|lia|exists 0; lia|exists k; lia|done].
Qed.

(** The overrun on a 3 by 3 grid: the square sampled at column 2 ends at 4,
    and so does the one sampled at row 2. *)
Lemma grayscale_overrun_witness :
  (∃ r, r ∈ vectorize_rects (Ndarray 3 3 (λ _ _, 0%Z)) "grayscale" true
        ∧ rx r = 2 ∧ rw r = 2 ∧ 3 < rx r + rw r)
  ∧ (∃ r, r ∈ vectorize_rects (Ndarray 3 3 (λ _ _, 0%Z)) "grayscale" true
          ∧ ry r = 2 ∧ rh r = 2 ∧ 3 < ry r + rh r).
Proof.
  split.
  - apply (proj1 (grayscale_overrun (Ndarray 3 3 (λ _ _, 0%Z)))).
    + exists 1. reflexivity.
    + simpl. lia.
  - apply (proj2 (grayscale_overrun (Ndarray 3 3 (λ _ _, 0%Z)))).
    + exists 1. reflexivity.
    + simpl. lia.
Defined.

(** C10 as first stated, without asking for a row (a column), fails: an
    array of shape (0, 3) has odd width and one of shape (3, 0) odd height,
    and neither gives any rectangle. *)
Lemma grayscale_overrun_empty_grid :
  ¬ (∀ a, Nat.Odd (width a) →
       ∃ r, r ∈ vectorize_rects a "grayscale" true
            ∧ rx r = width a - 1 ∧ rw r = 2 ∧ width a < rx r + rw r)
  ∧ ¬ (∀ a, Nat.Odd (height a) →
         ∃ r, r ∈ vectorize_rects a "grayscale" true
              ∧ ry r = height a - 1 ∧ rh r = 2 ∧ height a < ry r + rh r).
Proof.
  split.
  - intros Hclaim.
    destruct (Hclaim (Ndarray 0 3 (λ _ _, 0%Z))) as (r & Hr & _).
    + exists 1. reflexivity.
    + vm_compute in Hr. by apply elem_of_nil in Hr.
  - intros Hclaim.
    destruct (Hclaim (Ndarray 3 0 (λ _ _, 0%Z))) as (r & Hr & _).
    + exists 1. reflexivity.
    + vm_compute in Hr. by apply elem_of_nil in Hr.
Qed.

End grayscale.

(** ** The streaming encoder *)

Section streaming.
Import Vectorizer.

Lemma filter_bind {A B} (P : B → Prop) `{!∀ x, Decision (P x)}
    (f : A → list B) (l : list A) :
  filter P (l ≫= f) = l ≫= (λ x, filter P (f x)).
Proof.
  induction l as [|x l IH]; [done|]. by rewrite !bind_cons, filter_app, IH.
Qed.

Lemma bind_bind {A B C} (f : A → list B) (g : B → list C) (l : list A) :
  (l ≫= f) ≫= g = l ≫= (λ x, f x ≫= g).
Proof.
  induction l as [|x l IH]; [done|]. by rewrite !bind_cons, bind_app, IH.
Qed.

Lemma fmap_bind {A B C} (f : B → C) (g : A → list B) (l : list A) :
  f <$> (l ≫= g) = l ≫= (λ x, f <$> g x).
Proof.
  induction l as [|x l IH]; [done|]. by rewrite !bind_cons, fmap_app, IH.
Qed.

Lemma bind_nil_const {A B} (l : list A) : l ≫= (λ _, @nil B) = [].
Proof. induction l as [|x l IH]; [done|]. by rewrite bind_cons, IH. Qed.

(** The bands partition the rows, in order. *)
Lemma bands_rows (h : nat) : bands h ≫= (λ b, seq b.1 (b.2 - b.1)) = seq 0 h.
Proof.
  unfold bands, py_range. set (ch := max 1 (h / 10)).
  assert (Hch : 0 < ch) by (unfold ch; lia).
  rewrite !list_fmap_bind.
  assert (Hpre : ∀ k, seq 0 k ≫= ((λ b : nat * nat, seq b.1 (b.2 - b.1))
                        ∘ (λ y_start, (y_start, min (y_start + ch) h))
                        ∘ (λ i, i * ch))
                      = seq 0 (min (k * ch) h)).
  { induction k as [|k IH]; [done|].
    rewrite seq_S, bind_app, IH, bind_singleton. simpl.
    destruct (decide (k * ch ≤ h)) as [Hle|Hgt].
    - replace (min (k * ch) h) with (k * ch) by lia.
      replace (min (ch + k * ch) h) with (k * ch + (min (k * ch + ch) h - k * ch))
        by lia.
      by rewrite seq_app.
    - replace (min (k * ch + ch) h - k * ch) with 0 by lia.
      rewrite app_nil_r. f_equal. lia. }
  rewrite Hpre. f_equal.
  assert (h ≤ (h + ch - 1) / ch * ch); [|lia].
  destruct (decide (h ≤ (h + ch - 1) / ch * ch)) as [?|Hlt]; [done|].
  assert ((h + ch - 1) / ch < (h + ch - 1) / ch); [|lia].
  apply ceil_div_gt; lia.
Qed.

Lemma skip_run_chunk fuel a (ys ye y x : nat) :
  skip_run fuel (chunk a ys ye) y x = skip_run fuel a (ys + y) x.
Proof.
  revert x. induction fuel as [|fuel IH]; intros x; simpl; [done|].
  unfold binary at 1. simpl. fold (binary a (ys + y) x).
  by rewrite IH.
Qed.

Lemma filter_units_nil (y xs n : nat) :
  filter (λ r, 1 < rw r) ((λ xi, Rect xi y 1 1 "black") <$> seq xs n) = [].
Proof.
  revert xs. induction n as [|n IH]; intros xs; simpl; [done|].
  rewrite filter_cons_False by (simpl; lia). apply IH.
Qed.

Lemma filter_emit_run (y xs xe : nat) :
  filter (λ r, 1 < rw r) (emit_run true y xs xe)
  = if bool_decide (1 < xe - xs) then [Rect xs y (xe - xs) 1 "black"] else [].
Proof.
  unfold emit_run. simpl. case_bool_decide.
  - by rewrite filter_cons_True, filter_nil by done.
  - apply filter_units_nil.
Qed.

(** One row of a band: what the streaming encoder appends is what the
    whole-document encoder emits for that row under [simplify], without the
    unit rectangles; nothing at all when [simplify] is false. *)
Lemma scan_chunk_row_spec fuel a (ys ye : nat) simplify (y x : nat) paths :
  scan_chunk_row fuel (chunk a ys ye) ys simplify y x paths
  = paths ++ (if simplify
              then filter (λ r, 1 < rw r) (row_rects fuel a true (ys + y) x)
              else []).
Proof.
  revert x paths. induction fuel as [|fuel IH]; intros x paths; simpl.
  - destruct simplify; by rewrite app_nil_r.
  - case_bool_decide as Hx.
    2:{ destruct simplify; by rewrite app_nil_r. }
    unfold binary at 1. simpl. fold (binary a (ys + y) x).
    destruct (binary a (ys + y) x); [|apply IH].
    rewrite IH, skip_run_chunk. destruct simplify; simpl; [|done].
    rewrite filter_app, filter_emit_run.
    case_bool_decide; [by rewrite <-app_assoc|done].
Qed.

Lemma chunk_rows_spec a (ys ye : nat) simplify (y0 n : nat) paths :
  foldl (λ paths y, scan_chunk_row (width a) (chunk a ys ye) ys simplify y 0 paths)
        paths (seq y0 n)
  = paths ++ (if simplify
              then filter (λ r, 1 < rw r)
                     (seq (ys + y0) n ≫= (λ y, row_rects (width a) a true y 0))
              else []).
Proof.
  revert y0 paths. induction n as [|n IH]; intros y0 paths; csimpl.
  - destruct simplify; by rewrite app_nil_r.
  - rewrite IH, scan_chunk_row_spec. destruct simplify; [|by rewrite !app_nil_r].
    rewrite filter_app, <-app_assoc.
    by replace (ys + S y0) with (S (ys + y0)) by lia.
Qed.

Lemma chunk_rects_spec a (ys ye : nat) color_mode simplify :
  chunk_rects (chunk a ys ye) ys color_mode simplify
  = if simplify
    then filter (λ r, 1 < rw r)
           (seq ys (ye - ys) ≫= (λ y, row_rects (width a) a true y 0))
    else [].
Proof.
  unfold chunk_rects. simpl. rewrite chunk_rows_spec. simpl.
  by replace (ys + 0) with ys by lia.
Qed.

(** The streamed rectangles are those of the whole-document encoder under
    [simplify], minus every unit rectangle. *)
Lemma streaming_rects_spec a color_mode simplify :
  streaming_rects a color_mode simplify
  = if simplify then filter (λ r, 1 < rw r) (binary_rects a true) else [].
Proof.
  unfold streaming_rects.
  transitivity
    (bands (height a)
       ≫= (λ b, if simplify
                then filter (λ r, 1 < rw r)
                       (seq b.1 (b.2 - b.1)
                          ≫= (λ y, row_rects (width a) a true y 0))
                else [])).
  { apply list_bind_ext; [|done]. intros [ys ye]. apply chunk_rects_spec. }
  destruct simplify; [|apply bind_nil_const].
  rewrite binary_rects_rows.
  change (flat_map ?f ?l) with (l ≫= f).
  rewrite <-(bands_rows (height a)).
  by rewrite bind_bind, filter_bind.
Qed.

Lemma vectorize_streaming_rects a color_mode simplify :
  vectorize_streaming a color_mode simplify
  = [svg_open (width a) (height a) +:+ newline]
    ++ ((λ r, rect_svg r +:+ newline) <$> streaming_rects a color_mode simplify)
    ++ [svg_close].
Proof.
  unfold vectorize_streaming, streaming_rects, _generate_paths_for_chunk.
  do 2 f_equal. rewrite fmap_bind. apply list_bind_ext; [|done].
  intros b. by rewrite <-list_fmap_compose.
Qed.

Lemma elem_of_streaming_rects a color_mode simplify r :
  r ∈ streaming_rects a color_mode simplify ↔
    simplify = true
    ∧ ∃ y xs xe, y < height a ∧ maximal_run a y xs xe ∧ 1 < xe - xs
                 ∧ r = Rect xs y (xe - xs) 1 "black".
Proof.
  rewrite streaming_rects_spec. destruct simplify.
  2:{ split; [by intros ?%elem_of_nil|by intros [? _]]. }
  rewrite list_elem_of_filter, elem_of_binary_rects. split.
  - intros (Hw & y & xs & xe & Hy & Hrun & Hr). split; [done|].
    exists y, xs, xe. split_and!; [done..| |].
    + apply elem_of_emit_run in Hr as [(_ & ? & _)|(_ & xi & _ & ->)];
        [done|simpl in Hw; lia].
    + apply elem_of_emit_run in Hr as [(_ & _ & ->)|(_ & xi & _ & ->)];
        [done|simpl in Hw; lia].
  - intros (_ & y & xs & xe & Hy & Hrun & Hlen & ->). split; [simpl; lia|].
    exists y, xs, xe. split_and!; [done..|].
    apply elem_of_emit_run. by left.
Qed.

(** C9. The streaming encoder drops rectangles: a rectangle is streamed only
    when [simplify] is true and for a run longer than 1. With [simplify]
    false the stream is just the opening root element and the closing one;
    with [simplify] true an isolated dark pixel is covered by no streamed
    rectangle, while the whole-document encoder emits a unit rectangle
    for it. *)
Theorem streaming_drops_rectangles (a : ndarray) (color_mode : string) :
  vectorize_streaming a color_mode false
    = [svg_open (width a) (height a) +:+ newline; svg_close]
  ∧ (∀ simplify,
       vectorize_streaming a color_mode simplify
       = [svg_open (width a) (height a) +:+ newline]
         ++ ((λ r, rect_svg r +:+ newline)
               <$> streaming_rects a color_mode simplify)
         ++ [svg_close])
  ∧ (∀ simplify r,
       r ∈ streaming_rects a color_mode simplify ↔
         simplify = true
         ∧ ∃ y xs xe, y < height a ∧ maximal_run a y xs xe ∧ 1 < xe - xs
                      ∧ r = Rect xs y (xe - xs) 1 "black")
  ∧ (∀ x y, y < height a → maximal_run a y x (S x) →
       cover_count (streaming_rects a color_mode true) x y = 0
       ∧ Rect x y 1 1 "black" ∈ vectorize_rects a "binary" true).
Proof.
  split_and!.
  - by rewrite vectorize_streaming_rects, streaming_rects_spec.
  - intros simplify. apply vectorize_streaming_rects.
  - intros simplify r. apply elem_of_streaming_rects.
  - intros x y Hy Hrun. split.
    + destruct (decide (0 < cover_count (streaming_rects a color_mode true) x y))
        as [Hpos|?]; [|lia].
      apply cover_count_pos in Hpos as (r & Hr & Hc).
      apply elem_of_streaming_rects in Hr
        as (_ & y' & xs & xe & _ & Hrun' & Hlen & ->).
      apply covers_spec in Hc. simpl in Hc.
      assert (y' = y) as -> by lia.
      destruct (decide (xs = x)) as [->|Hne].
      * pose proof (maximal_run_end_unique _ _ _ _ _ Hrun Hrun'). lia.
      * pose proof (maximal_run_apart _ _ _ _ _ _ Hrun' Hrun). lia.
    + rewrite vectorize_rects_binary. apply elem_of_binary_rects.
      exists y, x, (S x). split_and!; [done..|].
      apply elem_of_emit_run. right. split; [right; lia|].
      exists x. split; [lia|done].
Qed.

(** The lone dark pixel of [lone_pixel] is dropped by the streaming encoder
    and kept by the whole-document one. *)
Lemma streaming_drops_rectangles_witness :
  cover_count (streaming_rects lone_pixel "binary" true) 1 0 = 0
  ∧ Rect 1 0 1 1 "black" ∈ vectorize_rects lone_pixel "binary" true.
Proof.
  apply (streaming_drops_rectangles lone_pixel "binary").
  - simpl. lia.
  - unfold maximal_run. split_and!.
    + lia.
    + simpl. lia.
    + intros i Hi. assert (i = 1) as -> by lia. reflexivity.
    + right. reflexivity.
    + right. reflexivity.
Defined.

End streaming.

(** ** The SVG document *)

Section document.
Import Vectorizer Xml.

Lemma append_cons c (s1 s2 : string) : String c s1 +:+ s2 = String c (s1 +:+ s2).
Proof. done. Qed.

Lemma append_nil_l (s : string) : EmptyString +:+ s = s.
Proof. done. Qed.

Lemma append_assoc (s1 s2 s3 : string) : (s1 +:+ s2) +:+ s3 = s1 +:+ (s2 +:+ s3).
Proof.
  induction s1 as [|c s1 IH]; [done|]. by rewrite !append_cons, IH.
Qed.

Lemma append_nil_r (s : string) : s +:+ EmptyString = s.
Proof. induction s as [|c s IH]; [done|]. by rewrite append_cons, IH. Qed.

(** Bring a concatenation to the form [c1 :: c2 :: ... +:+ (s +:+ ...)]. *)
Local Ltac string_normal :=
  repeat first
    [ rewrite append_assoc | rewrite append_cons
    | rewrite append_nil_l | rewrite append_nil_r ].

Lemma string_forall_app P (s1 s2 : string) :
  string_forall P (s1 +:+ s2) = string_forall P s1 && string_forall P s2.
Proof.
  induction s1 as [|c s1 IH]; [done|].
  rewrite append_cons. simpl. by rewrite IH, andb_assoc.
Qed.

(** Decimal numerals are made of digits only. *)
Lemma pretty_N_go_forall P (x : N) (s : string) :
  (∀ d, P (pretty_N_char d) = true) →
  string_forall P s = true → string_forall P (pretty_N_go x s) = true.
Proof.
  intros Hdigit. revert s. induction (N.lt_wf_0 x) as [x _ IH]; intros s Hs.
  assert (x = 0 ∨ 0 < x)%N as [->|Hpos] by lia.
  - by rewrite pretty_N_go_0.
  - rewrite pretty_N_go_step by done. apply IH.
    + by apply N.div_lt.
    + simpl. by rewrite Hdigit, Hs.
Qed.

Lemma pretty_N_forall P (x : N) :
  (∀ d, P (pretty_N_char d) = true) → string_forall P (pretty x) = true.
Proof.
  intros Hdigit. unfold pretty, pretty_N. case_decide.
  - simpl. rewrite andb_true_r. apply (Hdigit 0%N).
  - by apply pretty_N_go_forall.
Qed.

Lemma value_char_digit d : value_char (pretty_N_char d) = true.
Proof. unfold pretty_N_char. by repeat case_match. Qed.

Lemma value_ok_pretty_nat (n : nat) : value_ok (pretty n) = true.
Proof. apply pretty_N_forall, value_char_digit. Qed.

Lemma value_ok_pretty_Z (z : Z) : value_ok (pretty z) = true.
Proof.
  unfold pretty, pretty_Z. destruct z as [|p|p]; [done|..].
  - apply pretty_N_forall, value_char_digit.
  - unfold value_ok. rewrite string_forall_app.
    apply andb_true_iff. split; [done|].
    apply pretty_N_forall, value_char_digit.
Qed.

Lemma value_ok_rgb (z : Z) : value_ok (rgb z) = true.
Proof.
  unfold rgb, value_ok. rewrite !string_forall_app.
  fold (value_ok (pretty z)). by rewrite value_ok_pretty_Z.
Qed.

Lemma to_string_rect_node r : to_string (rect_node r) = rect_svg r.
Proof.
  unfold rect_node, rect_svg, to_string, attrs_to_string, attr. simpl.
  by string_normal.
Qed.

Lemma attrs_to_string_app l1 l2 :
  attrs_to_string (l1 ++ l2) = attrs_to_string l1 +:+ attrs_to_string l2.
Proof.
  induction l1 as [|kv l1 IH]; [done|]. unfold attrs_to_string in *. simpl.
  by rewrite IH, append_assoc.
Qed.

Lemma join_cons sep p q ps :
  join sep (p :: q :: ps) = p +:+ sep +:+ join sep (q :: ps).
Proof. done. Qed.

Lemma join_body rects :
  join newline ((rect_svg <$> rects) ++ [svg_close]) = body_text rects.
Proof.
  induction rects as [|r rects IH]; [done|].
  destruct rects as [|r' rects]; [done|].
  change (join newline (rect_svg r :: (rect_svg <$> r' :: rects) ++ [svg_close])
          = rect_svg r +:+ newline +:+ body_text (r' :: rects)).
  rewrite <-IH. done.
Qed.

Lemma create_svg_text a w h color_mode simplify :
  _create_svg_from_array a w h color_mode simplify
  = svg_open w h +:+ newline +:+ body_text (vectorize_rects a color_mode simplify).
Proof.
  unfold _create_svg_from_array, vectorize_rects, _generate_binary_paths,
    _generate_grayscale_paths.
  case_bool_decide.
  - rewrite <-join_body. by destruct (binary_rects a simplify).
  - rewrite <-join_body. by destruct (grayscale_rects a simplify).
Qed.

Lemma join_fragments rects :
  join EmptyString (((λ r, rect_svg r +:+ newline) <$> rects) ++ [svg_close])
  = body_text rects.
Proof.
  induction rects as [|r rects IH]; [done|].
  destruct rects as [|r' rects].
  - simpl. by rewrite append_nil_l, append_assoc.
  - change (join EmptyString
              ((rect_svg r +:+ newline)
                 :: ((λ r, rect_svg r +:+ newline) <$> r' :: rects) ++ [svg_close])
            = rect_svg r +:+ newline +:+ body_text (r' :: rects)).
    rewrite <-IH. simpl. by rewrite append_nil_l, !append_assoc.
Qed.

Lemma streaming_text a color_mode simplify :
  join EmptyString (vectorize_streaming a color_mode simplify)
  = svg_open (width a) (height a) +:+ newline
    +:+ body_text (streaming_rects a color_mode simplify).
Proof.
  rewrite vectorize_streaming_rects, <-join_fragments.
  destruct (streaming_rects a color_mode simplify); simpl.
  - by rewrite append_nil_l, append_assoc.
  - by rewrite append_nil_l, !append_assoc.
Qed.

Lemma replace_first_unfold old new s :
  replace_first old new s
  = if String.prefix old s
    then new +:+ String.substring (String.length old)
                   (String.length s - String.length old) s
    else match s with
         | EmptyString => EmptyString
         | String c s' => String c (replace_first old new s')
         end.
Proof. by destruct s. Qed.

Lemma prefix_append old rest : String.prefix old (old +:+ rest) = true.
Proof.
  induction old as [|c old IH]; [by destruct rest|].
  rewrite append_cons. simpl. destruct (ascii_dec c c); [done|congruence].
Qed.

Lemma substring_all s : String.substring 0 (String.length s) s = s.
Proof. induction s as [|c s IH]; [done|]. simpl. by rewrite IH. Qed.

Lemma substring_append old rest :
  String.substring (String.length old)
    (String.length (old +:+ rest) - String.length old) (old +:+ rest) = rest.
Proof.
  induction old as [|c old IH].
  - rewrite append_nil_l. simpl. rewrite Nat.sub_0_r. apply substring_all.
  - rewrite append_cons. simpl. apply IH.
Qed.

Lemma replace_first_prefix old new rest :
  replace_first old new (old +:+ rest) = new +:+ rest.
Proof.
  by rewrite replace_first_unfold, prefix_append, substring_append.
Qed.

Lemma svg_open_with_nil w h : svg_open_with [] w h = svg_open w h.
Proof. done. Qed.

Lemma vectorize_text a color_mode simplify t :
  vectorize a color_mode simplify t
  = svg_open_with [("data-processing-time", t +:+ "ms")] (width a) (height a)
    +:+ newline +:+ body_text (vectorize_rects a color_mode simplify).
Proof.
  unfold vectorize. cbv zeta. rewrite create_svg_text.
  unfold svg_open, svg_open_with, attrs_to_string. cbn [foldr fst snd].
  rewrite !append_assoc, append_nil_l.
  by rewrite (replace_first_prefix "<svg").
Qed.

Lemma children_text rects :
  foldr (λ c s, to_string c +:+ s) EmptyString
        (rects ≫= λ r, [rect_node r; Text newline]) +:+ svg_close
  = body_text rects.
Proof.
  induction rects as [|r rects IH]; [done|].
  rewrite bind_cons.
  change ([rect_node r; Text newline] ++ ?l) with (rect_node r :: Text newline :: l).
  cbn [foldr]. change (to_string (Text newline)) with newline.
  rewrite to_string_rect_node, !append_assoc, IH. done.
Qed.

Lemma to_string_svg_node extra w h rects :
  to_string (svg_node extra w h rects)
  = svg_open_with extra w h +:+ newline +:+ body_text rects.
Proof.
  unfold svg_node, svg_open_with.
  change (to_string (Element ?t ?ats (?c0 :: ?cs)))
    with ("<" +:+ t +:+ attrs_to_string ats +:+ ">"
          +:+ foldr (λ n s, to_string n +:+ s) EmptyString (c0 :: cs)
          +:+ "</" +:+ t +:+ ">").
  cbn [foldr]. change (to_string (Text newline)) with newline.
  rewrite attrs_to_string_app, <-children_text.
  unfold attrs_to_string, svg_close. simpl.
  string_normal. done.
Qed.

Lemma well_formed_rect_node r :
  value_ok (rfill r) = true → well_formed (rect_node r) = true.
Proof.
  intros Hfill. unfold rect_node, well_formed.
  cbn [forallb fst snd]. rewrite !value_ok_pretty_nat, Hfill. done.
Qed.

Lemma well_formed_children rects :
  Forall (λ r, value_ok (rfill r) = true) rects →
  forallb well_formed (rects ≫= λ r, [rect_node r; Text newline]) = true.
Proof.
  induction 1 as [|r rects Hr _ IH]; [done|].
  rewrite bind_cons.
  change ([rect_node r; Text newline] ++ ?l) with (rect_node r :: Text newline :: l).
  cbn [forallb]. rewrite IH, well_formed_rect_node by done. done.
Qed.

Lemma well_formed_svg_node extra w h rects :
  forallb (λ kv, name_ok kv.1 && value_ok kv.2) extra = true →
  NoDup (extra.*1 ++ ["xmlns"; "width"; "height"; "viewBox"]) →
  Forall (λ r, value_ok (rfill r) = true) rects →
  well_formed (svg_node extra w h rects) = true.
Proof.
  intros Hextra Hnames Hfill. unfold svg_node.
  change (well_formed (Element ?t ?ats ?cs))
    with (name_ok t && forallb (λ kv, name_ok kv.1 && value_ok kv.2) ats
          && bool_decide (NoDup ats.*1) && forallb well_formed cs).
  rewrite forallb_app, Hextra, fmap_app, (bool_decide_eq_true_2 _ Hnames).
  cbn [forallb]. change (well_formed (Text newline)) with true.
  rewrite (well_formed_children _ Hfill).
  cbn [fst snd]. rewrite !value_ok_pretty_nat.
  assert (value_ok ("0 0 " +:+ pretty w +:+ " " +:+ pretty h) = true) as ->.
  { unfold value_ok. rewrite !string_forall_app.
    fold (value_ok (pretty w)) (value_ok (pretty h)).
    by rewrite !value_ok_pretty_nat. }
  done.
Qed.

Lemma attribute_svg_node extra w h rects k v :
  NoDup (extra.*1 ++ ["xmlns"; "width"; "height"; "viewBox"]) →
  (k, v) ∈ declared_attrs w h →
  attribute (svg_node extra w h rects) k = Some v.
Proof.
  intros Hnames Hin. unfold svg_node, attribute.
  apply elem_of_list_to_map; [by rewrite fmap_app|].
  apply elem_of_app. by right.
Qed.

Lemma svg_contract_svg_node extra w h rects :
  forallb (λ kv, name_ok kv.1 && value_ok kv.2) extra = true →
  NoDup (extra.*1 ++ ["xmlns"; "width"; "height"; "viewBox"]) →
  Forall (λ r, value_ok (rfill r) = true) rects →
  svg_contract w h (svg_open_with extra w h +:+ newline +:+ body_text rects).
Proof.
  intros Hextra Hnames Hfill. exists (svg_node extra w h rects).
  split_and!.
  - apply to_string_svg_node.
  - by apply well_formed_svg_node.
  - done.
  - apply attribute_svg_node; [done|]. set_solver.
  - apply attribute_svg_node; [done|]. unfold declared_attrs. set_solver.
  - apply attribute_svg_node; [done|]. unfold declared_attrs. set_solver.
  - apply attribute_svg_node; [done|]. unfold declared_attrs. set_solver.
Qed.

Lemma value_ok_fill_vectorize_rects a color_mode simplify :
  Forall (λ r, value_ok (rfill r) = true) (vectorize_rects a color_mode simplify).
Proof.
  apply Forall_forall. intros r. unfold vectorize_rects. case_bool_decide.
  - intros (_ & _ & -> & _)%binary_rects_shape. done.
  - intros (x & y & _ & _ & _ & _ & ->)%elem_of_grayscale_rects.
    apply value_ok_rgb.
Qed.

Lemma value_ok_fill_streaming_rects a color_mode simplify :
  Forall (λ r, value_ok (rfill r) = true) (streaming_rects a color_mode simplify).
Proof.
  apply Forall_forall. intros r.
  intros (_ & y & xs & xe & _ & _ & _ & ->)%elem_of_streaming_rects. done.
Qed.

(** C8. SVG document contract: for a grid of [h] rows and [w] columns, the
    document built by [_create_svg_from_array], the concatenation of the
    fragments yielded by [vectorize_streaming], and the document returned by
    [vectorize] with its [data-processing-time] attribute, are each the text
    of a well-formed XML tree whose root is an [svg] element that declares
    the SVG namespace and carries [width] = w, [height] = h and
    [viewBox] = "0 0 w h". The time text is any text free of [<], [&] and
    the double quote, as every formatted number is. *)
Theorem svg_document_contract (a : ndarray) (color_mode : string) (simplify : bool) :
  svg_contract (width a) (height a)
    (_create_svg_from_array a (width a) (height a) color_mode simplify)
  ∧ svg_contract (width a) (height a)
      (join EmptyString (vectorize_streaming a color_mode simplify))
  ∧ (∀ processing_time, value_ok processing_time = true →
       svg_contract (width a) (height a)
         (vectorize a color_mode simplify processing_time)).
Proof.
  split_and!.
  - rewrite create_svg_text, <-svg_open_with_nil.
    apply svg_contract_svg_node;
      [done|compute_done|apply value_ok_fill_vectorize_rects].
  - rewrite streaming_text, <-svg_open_with_nil.
    apply svg_contract_svg_node;
      [done|compute_done|apply value_ok_fill_streaming_rects].
  - intros t Ht. rewrite vectorize_text.
    apply svg_contract_svg_node;
      [|compute_done|apply value_ok_fill_vectorize_rects].
    cbn [forallb fst snd]. unfold value_ok. rewrite string_forall_app.
    fold (value_ok t). by rewrite Ht.
Qed.

(** The contract at work on a 2 by 1 grid with one dark pixel and a clock
    reading of 0.42 ms. *)
Lemma svg_document_contract_witness :
  svg_contract 2 1
    (vectorize (Ndarray 1 2 (λ _ x, if bool_decide (x = 0) then 0%Z else 255%Z))
       "binary" true "0.42").
Proof.
  apply (svg_document_contract
           (Ndarray 1 2 (λ _ x, if bool_decide (x = 0) then 0%Z else 255%Z))
           "binary" true).
  reflexivity.
Defined.

End document.

(** ** The encoders read the array inside its shape only *)

Section frame.
Import Vectorizer.

Lemma binary_same a b (y x : nat) :
  same_array a b → y < height a → x < width a → binary a y x = binary b y x.
Proof. intros (_ & _ & Hitem) Hy Hx. unfold binary. by rewrite Hitem. Qed.

Lemma skip_run_same a b fuel (y x : nat) :
  same_array a b → y < height a →
  skip_run fuel a y x = skip_run fuel b y x.
Proof.
  intros Hsame Hy. pose proof Hsame as (Hh & Hw & _). revert x.
  induction fuel as [|fuel IH]; intros x; simpl; [done|].
  rewrite <-Hw. case_bool_decide as Hx; simpl; [|done].
  by rewrite <-(binary_same a b y x), IH.
Qed.

Lemma row_rects_same a b fuel simplify (y x : nat) :
  same_array a b → y < height a →
  row_rects fuel a simplify y x = row_rects fuel b simplify y x.
Proof.
  intros Hsame Hy. pose proof Hsame as (Hh & Hw & _). revert x.
  induction fuel as [|fuel IH]; intros x; simpl; [done|].
  rewrite <-Hw. case_bool_decide as Hx; [|done].
  rewrite <-(binary_same a b y x), <-(skip_run_same a b) by done.
  by rewrite !IH.
Qed.

Lemma binary_rects_same a b simplify :
  same_array a b → binary_rects a simplify = binary_rects b simplify.
Proof.
  intros Hsame. pose proof Hsame as (Hh & Hw & _).
  rewrite !binary_rects_rows, <-Hh, <-Hw.
  change (flat_map ?f ?l) with (l ≫= f).
  apply Forall_bind_ext, Forall_forall. intros y Hy%elem_of_seq.
  apply row_rects_same; [done|lia].
Qed.

Lemma grayscale_rects_same a b simplify :
  same_array a b → grayscale_rects a simplify = grayscale_rects b simplify.
Proof.
  intros (Hh & Hw & Hitem). unfold grayscale_rects. rewrite <-Hh, <-Hw.
  pose proof (grayscale_step_pos simplify) as Hstep.
  apply Forall_bind_ext, Forall_forall. intros y [Hy _]%elem_of_py_range; [|done].
  apply Forall_bind_ext, Forall_forall. intros x [Hx _]%elem_of_py_range; [|done].
  by rewrite Hitem.
Qed.

(** What lies outside the shape has no part in the output. *)
Lemma vectorize_rects_same a b color_mode simplify :
  same_array a b →
  vectorize_rects a color_mode simplify = vectorize_rects b color_mode simplify.
Proof.
  intros Hsame. unfold vectorize_rects. case_bool_decide.
  - by apply binary_rects_same.
  - by apply grayscale_rects_same.
Qed.

Lemma streaming_rects_same a b color_mode simplify :
  same_array a b →
  streaming_rects a color_mode simplify = streaming_rects b color_mode simplify.
Proof.
  intros Hsame. rewrite !streaming_rects_spec.
  by rewrite (binary_rects_same a b).
Qed.

End frame.

(** * Properties of the cache layer *)

Section cache_key.
Import Py CacheManager.

Global Instance key_le_trans : Transitive key_le.
Proof. intros kv1 kv2 kv3. unfold key_le. apply transitivity. Qed.

Global Instance key_le_total : Total key_le.
Proof. intros kv1 kv2. unfold key_le. apply total, _. Qed.

(** Sorting by key forgets the insertion order of a dict. *)
Lemma merge_sort_key_le_perm (p1 p2 : pydict) :
  NoDup p1.*1 → p1 ≡ₚ p2 → merge_sort key_le p1 = merge_sort key_le p2.
Proof.
  intros Hnodup Hperm.
  apply (StronglySorted_unique_strong key_le).
  - intros [k1 v1] [k2 v2] Hin1 Hin2 Hle1 Hle2. unfold key_le in *. simpl in *.
    assert (k1 = k2) as <- by (by apply (anti_symm String.le)).
    rewrite merge_sort_Permutation in Hin1, Hin2. rewrite <-Hperm in Hin2.
    f_equal.
    apply (elem_of_list_to_map (M:=gmap string)) in Hin1, Hin2; [|done..].
    congruence.
  - apply StronglySorted_merge_sort; apply _.
  - apply StronglySorted_merge_sort; apply _.
  - by rewrite !merge_sort_Permutation.
Qed.

(** C4. Cache-key determinism and parameter-order insensitivity: whatever
    hash and string encoder are plugged in, the key depends only on the
    image bytes and on the parameters, not on the manager it is asked from
    (so it is the same on every call and in every process); it starts with
    [svg:]; and two parameter dicts that hold the same value under the same
    keys give the same key whatever the order their keys were inserted in. *)
Theorem cache_key_deterministic {world1 world2}
    (xxh64_hexdigest : bytes → string) (encode_basestring : string → string)
    (self1 : CacheManager world1) (self2 : CacheManager world2)
    (image_data : bytes) (params1 params2 : pydict) :
  NoDup params1.*1 → NoDup params2.*1 →
  (list_to_map params1 : gmap string json) = list_to_map params2 →
  generate_cache_key xxh64_hexdigest encode_basestring self1 image_data params1
  = generate_cache_key xxh64_hexdigest encode_basestring self2 image_data params2
  ∧ ∃ digest,
      generate_cache_key xxh64_hexdigest encode_basestring self1 image_data params1
      = "svg:" +:+ digest.
Proof.
  intros Hnd1 Hnd2 Hmap. split; [|by eexists].
  unfold generate_cache_key, json_dumps_sorted.
  rewrite (merge_sort_key_le_perm params1 params2); [done..|].
  by apply list_to_map_inj.
Qed.

(** The same five parameters the endpoint sends, written in two orders. *)
Lemma cache_key_deterministic_witness :
  generate_cache_key (λ _, "0123456789abcdef") (λ s, dquote +:+ s +:+ dquote)
    (Build_CacheManager unit true 3600 None) []
    [("resize", JBool true); ("enhance", JBool false); ("threshold", JNull);
     ("color_mode", JStr "binary"); ("simplify", JBool true)]
  = generate_cache_key (λ _, "0123456789abcdef") (λ s, dquote +:+ s +:+ dquote)
      (Build_CacheManager unit false 60 None) []
      [("simplify", JBool true); ("color_mode", JStr "binary");
       ("threshold", JNull); ("enhance", JBool false); ("resize", JBool true)]
  ∧ ∃ digest,
      generate_cache_key (λ _, "0123456789abcdef") (λ s, dquote +:+ s +:+ dquote)
        (Build_CacheManager unit true 3600 None) []
        [("resize", JBool true); ("enhance", JBool false); ("threshold", JNull);
         ("color_mode", JStr "binary"); ("simplify", JBool true)]
      = "svg:" +:+ digest.
Proof.
  apply cache_key_deterministic.
  - compute_done.
  - compute_done.
  - vm_compute. reflexivity.
Defined.

End cache_key.

Section cache_errors.
Import Py CacheManager.
Context {world : Type}.

Lemma get_returns (self : CacheManager world) key w :
  ∃ data w', get self key w = (Returned data, w').
Proof.
  unfold get. destruct (redis_client self) as [client|]; [|by eauto].
  destruct (negb (enabled self)); [by eauto|].
  destruct (redis_get client key w) as [[data|e] w']; eauto.
Qed.

Lemma set_returns (self : CacheManager world) key value ttl_arg w :
  ∃ w', set self key value ttl_arg w = (Returned tt, w').
Proof.
  unfold set. destruct (redis_client self) as [client|]; [|by eauto].
  destruct (negb (enabled self)); [by eauto|].
  destruct (redis_setex client key _ value w) as [[[]|e] w']; eauto.
Qed.

Lemma exists_returns (self : CacheManager world) key w :
  ∃ b w', exists_ self key w = (Returned b, w').
Proof.
  unfold exists_. destruct (redis_client self) as [client|]; [|by eauto].
  destruct (negb (enabled self)); [by eauto|].
  destruct (redis_exists client key w) as [[n|e] w']; eauto.
Qed.

(** C7. Cache error containment: [get], [set] and [exists] always return
    and never raise; when the backing store raises, [get] answers a miss,
    [set] returns normally and [exists] answers false; and when the cache
    is disabled or has no client they give the same miss, no-op and false
    without touching the store. *)
Theorem cache_error_containment (self : CacheManager world)
    (key : string) (value : bytes) (ttl_arg : option Z) (w : world) :
  ((∃ data w', get self key w = (Returned data, w'))
   ∧ (∃ w', set self key value ttl_arg w = (Returned tt, w'))
   ∧ (∃ b w', exists_ self key w = (Returned b, w')))
  ∧ (∀ client, enabled self = true → redis_client self = Some client →
       (∀ e w', redis_get client key w = (Raised e, w') →
                get self key w = (Returned None, w'))
       ∧ (∀ e w', redis_setex client key (ttl_or ttl_arg (ttl self)) value w
                  = (Raised e, w') →
                  set self key value ttl_arg w = (Returned tt, w'))
       ∧ (∀ e w', redis_exists client key w = (Raised e, w') →
                  exists_ self key w = (Returned false, w')))
  ∧ (enabled self = false ∨ redis_client self = None →
       get self key w = (Returned None, w)
       ∧ set self key value ttl_arg w = (Returned tt, w)
       ∧ exists_ self key w = (Returned false, w)).
Proof.
  split_and!.
  - apply get_returns.
  - apply set_returns.
  - apply exists_returns.
  - intros client Hen Hcl. unfold get, set, exists_. rewrite Hcl, Hen. simpl.
    split_and!; intros e w' ->; done.
  - intros Hoff. unfold get, set, exists_.
    destruct (redis_client self) as [client|]; [|done].
    destruct Hoff as [->|?]; done.
Qed.

End cache_errors.

Section cache_errors_example.
Import Py CacheManager.

(** With a server that cannot be reached the three commands still answer. *)
Lemma cache_error_containment_witness :
  get (Build_CacheManager unit true 3600 (Some failing_client)) "svg:k1" tt
    = (Returned None, tt)
  ∧ set (Build_CacheManager unit true 3600 (Some failing_client)) "svg:k1" [] None tt
    = (Returned tt, tt)
  ∧ exists_ (Build_CacheManager unit true 3600 (Some failing_client)) "svg:k1" tt
    = (Returned false, tt).
Proof.
  destruct (cache_error_containment
              (Build_CacheManager unit true 3600 (Some failing_client))
              "svg:k1" [] None tt) as (_ & Hraise & _).
  destruct (Hraise failing_client eq_refl eq_refl) as (Hget & Hset & Hexists).
  split_and!; [eapply Hget|eapply Hset|eapply Hexists]; reflexivity.
Defined.

End cache_errors_example.

(** * Properties of the job orchestrator *)

Section job_steps.
Import Py BackgroundTaskManager.
Context {A : Type}.
Implicit Types (k : unit → task A) (r : run).

Lemma bind_setitem tid key v (rec : gmap string pyval) P C obs st k :
  (pending_setitem tid key v ≫= k) (Run (Manager (<[tid:=rec]> P) C) obs st)
  = k tt (Run (Manager (<[tid:=<[key:=v]> rec]> P) C) obs st).
Proof.
  unfold mbind, task_bind, pending_setitem.
  cbn [mgr pending_tasks completed_tasks observed stages].
  by rewrite lookup_insert_eq, insert_insert_eq.
Qed.

Lemma bind_await {B} s (o : outcome B) (f : B → task A) r :
  (await s o ≫= f) r
  = match o with
    | Returned b => f b (Run (mgr r) (observed r ++ [mgr r]) (stages r ++ [s]))
    | Raised e => (Raised e, Run (mgr r) (observed r ++ [mgr r]) (stages r ++ [s]))
    end.
Proof. unfold mbind, task_bind, await. by destruct o. Qed.

Lemma bind_call {B} (o : outcome B) (f : B → task A) r :
  (call o ≫= f) r
  = match o with
    | Returned b => f b r
    | Raised e => (Raised e, r)
    end.
Proof. unfold mbind, task_bind, call. by destruct o. Qed.

Lemma bind_completed_assign tid rec k r :
  (completed_assign tid rec ≫= k) r
  = k tt (Run (Manager (pending_tasks (mgr r))
                       (<[tid := rec]> (completed_tasks (mgr r))))
              (observed r) (stages r)).
Proof. done. Qed.

Lemma try_except_eq (body : task A) handler r :
  try_except body handler r
  = match body r with
    | (Returned a, r') => (Returned a, r')
    | (Raised e, r') => handler e r'
    end.
Proof. done. Qed.

End job_steps.

Section job_lifecycle.
Import Py BackgroundTaskManager.

Lemma record_processing_10 :
  <["progress" := VInt 10]> (<["status" := VStr "processing"]> pending_record)
  = processing_record 10.
Proof.
  apply map_eq. intros k. unfold pending_record, processing_record.
  destruct (decide (k = "status")) as [->|]; [done|].
  destruct (decide (k = "progress")) as [->|]; [done|].
  by simplify_map_eq.
Qed.

Lemma record_progress p q :
  <["progress" := VInt q]> (processing_record p) = processing_record q.
Proof.
  apply map_eq. intros k. unfold processing_record.
  destruct (decide (k = "status")) as [->|]; [done|].
  destruct (decide (k = "progress")) as [->|]; by simplify_map_eq.
Qed.

Local Ltac job_step :=
  first
    [ rewrite bind_setitem
    | rewrite bind_await
    | rewrite bind_call
    | rewrite bind_completed_assign
    | rewrite record_processing_10
    | rewrite record_progress
    | rewrite delete_insert_eq
    | progress unfold pending_discard
    | progress cbv beta iota zeta
    | progress cbn [mgr observed stages pending_tasks completed_tasks snd app] ].

Local Ltac job_done path :=
  repeat job_step;
  eexists _, _, _; split; [apply path|reflexivity].

(** Every job goes one of the six ways of [job_path]. *)
Lemma job_follows_path env self tid data params :
  ∃ progress awaited final,
    job_path progress awaited final
    ∧ job env self tid data params = job_outcome self tid progress awaited final.
Proof.
  unfold job, job_outcome, _process_task, submit_vectorization_task.
  rewrite try_except_eq. fold pending_record. destruct self as [P C].
  repeat job_step.
  destruct (cache_get env _) as [cached|e]; [|job_done path_fail_lookup].
  repeat job_step. destruct (cache_hit cached) as [hit|].
  { repeat job_step.
    destruct (decode_utf8 env hit) as [result|e];
      [job_done path_hit|job_done path_fail_lookup]. }
  repeat job_step.
  destruct (preprocess env _ _ _ _) as [[arr meta]|e];
    [|job_done path_fail_preprocess].
  repeat job_step.
  destruct (vectorize env _ _ _) as [svg|e]; [|job_done path_fail_vectorize].
  repeat job_step.
  destruct (cache_set env _ _) as [[]|e];
    [job_done path_computed|job_done path_fail_store].
Qed.

Lemma statuses_job_outcome self tid progress awaited final :
  statuses (job_outcome self tid progress awaited final) tid
  = Some pending_record
    :: ((λ p, Some (processing_record p)) <$> progress) ++ [Some final].
Proof.
  unfold statuses, job_outcome. cbn [observed].
  rewrite fmap_cons, fmap_app, <-list_fmap_compose. f_equal; [|f_equal].
  - unfold get_task_status. cbn [pending_tasks]. by rewrite lookup_insert_eq.
  - apply list_fmap_ext. intros i p _. unfold get_task_status. simpl.
    by rewrite lookup_insert_eq.
  - simpl. unfold get_task_status. cbn [pending_tasks completed_tasks].
    by rewrite lookup_delete_eq, lookup_insert_eq.
Qed.

Lemma final_status_job_outcome self tid progress awaited final :
  get_task_status (mgr (job_outcome self tid progress awaited final)) tid
  = Some final.
Proof.
  unfold get_task_status, job_outcome. cbn [mgr pending_tasks completed_tasks].
  by rewrite lookup_delete_eq, lookup_insert_eq.
Qed.

(** What the stored dicts hold, path by path. *)
Lemma job_path_final progress awaited final :
  job_path progress awaited final →
  progress ≠ []
  ∧ Forall (λ p, p ∈ [10; 30; 60; 90]%Z) progress
  ∧ StronglySorted Z.le progress
  ∧ final !! "progress" = None
  ∧ final !! "completed_at" = None
  ∧ ((final !! "status" = Some (VStr "completed")
      ∧ (∃ result, final !! "result" = Some (VStr result))
      ∧ (∃ from_cache, final !! "from_cache" = Some (VBool from_cache)))
     ∨ (final !! "status" = Some (VStr "failed")
        ∧ (∃ e, final !! "error" = Some (VStr e))))
  ∧ (final !! "from_cache" = Some (VBool true) → awaited = [CacheGet])
  ∧ phase_rank (Some final) = 2.
Proof.
  destruct 1; (split_and!;
    [ done
    | repeat constructor; compute_done
    | repeat constructor; lia
    | done
    | done
    | first [ left; split_and!; [done|by eexists|by eexists]
            | right; split_and!; [done|by eexists] ]
    | first [ done | by intros [=] ]
    | done ]).
Qed.

Lemma phase_rank_processing p : phase_rank (Some (processing_record p)) = 1.
Proof. reflexivity. Qed.

Lemma phase_rank_sorted progress final :
  phase_rank (Some final) = 2 →
  StronglySorted le
    (phase_rank <$> (Some pending_record
                     :: ((λ p, Some (processing_record p)) <$> progress)
                     ++ [Some final])).
Proof.
  intros Hfinal. rewrite fmap_cons, fmap_app, <-list_fmap_compose.
  rewrite (list_fmap_ext _ (λ _, 1) progress)
    by (intros; apply phase_rank_processing).
  change (phase_rank <$> [Some final]) with [phase_rank (Some final)].
  rewrite Hfinal. change (phase_rank (Some pending_record)) with 0.
  constructor; [|apply Forall_forall; intros; lia].
  induction progress as [|p progress IH]; simpl; [repeat constructor|].
  constructor; [done|]. apply Forall_app. split.
  - apply Forall_fmap, Forall_true. intros q. simpl. lia.
  - repeat constructor.
Qed.

(** C2 (as amended). Job lifecycle: the status record of a submitted job is
    first pending with progress 0, then processing with progress running
    through a non-empty initial part of 10, 30, 60, 90, and at the end of
    the task a terminal record that is either completed, with a result and
    a from_cache flag, or failed, with an error message; the terminal record
    carries no progress value; no status goes back to an earlier phase; and
    a completion with from_cache true awaited the cache lookup only, so
    neither preprocessing nor vectorization ran. *)
Theorem job_lifecycle (env : collaborators) (self : manager) (task_id : string)
    (image_data : bytes) (params : pydict) :
  ∃ progress final,
    statuses (job env self task_id image_data params) task_id
    = Some pending_record
      :: ((λ p, Some (processing_record p)) <$> progress) ++ [Some final]
    ∧ get_task_status (mgr (job env self task_id image_data params)) task_id
      = Some final
    ∧ progress ≠ []
    ∧ Forall (λ p, p ∈ [10; 30; 60; 90]%Z) progress
    ∧ StronglySorted Z.le progress
    ∧ StronglySorted le
        (phase_rank <$> statuses (job env self task_id image_data params) task_id)
    ∧ final !! "progress" = None
    ∧ ((final !! "status" = Some (VStr "completed")
        ∧ (∃ result, final !! "result" = Some (VStr result))
        ∧ (∃ from_cache, final !! "from_cache" = Some (VBool from_cache)))
       ∨ (final !! "status" = Some (VStr "failed")
          ∧ (∃ e, final !! "error" = Some (VStr e))))
    ∧ (final !! "from_cache" = Some (VBool true) →
         stages (job env self task_id image_data params) = [CacheGet]
         ∧ (Preprocess ∉ stages (job env self task_id image_data params))
         ∧ (Vectorize ∉ stages (job env self task_id image_data params))).
Proof.
  destruct (job_follows_path env self task_id image_data params)
    as (progress & awaited & final & Hpath & ->).
  destruct (job_path_final _ _ _ Hpath)
    as (Hne & Hin & Hsorted & Hprog & _ & Hterm & Hcache & Hrank).
  exists progress, final.
  rewrite statuses_job_outcome, final_status_job_outcome.
  split_and!; [done..| |done|done|].
  - by apply phase_rank_sorted.
  - intros Hfrom. rewrite (Hcache Hfrom). unfold job_outcome. simpl.
    split_and!; [done|by intros ?%list_elem_of_singleton..].
Qed.

(** C2 as first stated fails on the completed record: the job whose result
    is cached ends completed, and its record has no progress entry at all,
    so its progress is not 100. *)
Lemma completed_record_without_progress :
  (get_task_status (mgr (job cached_collaborators new_manager "t1" [] [])) "t1"
     ≫= (.!! "status")) = Some (VStr "completed")
  ∧ (get_task_status (mgr (job cached_collaborators new_manager "t1" [] [])) "t1"
       ≫= (.!! "progress")) ≠ Some (VInt 100).
Proof. split; [vm_compute; reflexivity|vm_compute; discriminate]. Qed.

End job_lifecycle.

Section cleanup.
Import Py BackgroundTaskManager.

Lemma collect_expired_no_timestamp now max_age items to_remove :
  Forall (λ item : string * gmap string pyval, item.2 !! "completed_at" = None)
         items →
  collect_expired now max_age items to_remove = Returned to_remove.
Proof.
  intros Hitems. revert to_remove.
  induction Hitems as [|[tid rec] items Hrec _ IH]; intros to_remove; [done|].
  simpl in *. unfold expired. rewrite Hrec. apply IH.
Qed.

(** Without a ['completed_at'] entry anywhere the sweep removes nothing. *)
Lemma cleanup_no_timestamp self max_age now :
  (∀ tid rec, completed_tasks self !! tid = Some rec →
              rec !! "completed_at" = None) →
  cleanup_completed_tasks self max_age now = Returned self.
Proof.
  intros Hnone. unfold cleanup_completed_tasks.
  rewrite collect_expired_no_timestamp; [by destruct self|].
  apply Forall_forall. intros [tid rec] Hin%elem_of_map_to_list. eauto.
Qed.

(** C3, on the code. The sweep has nothing to go by: whatever way a job
    submitted to a fresh manager ends, the record stored for it has no
    ['completed_at'] entry, so [cleanup_completed_tasks] returns the manager
    as it is, with the record still there, for every age limit and at every
    later time. *)
Theorem cleanup_keeps_finished_job (env : collaborators) (task_id : string)
    (image_data : bytes) (params : pydict) (max_age_seconds current_time : Z) :
  is_Some (completed_tasks (mgr (job env new_manager task_id image_data params))
             !! task_id)
  ∧ (∀ tid rec,
       completed_tasks (mgr (job env new_manager task_id image_data params)) !! tid
       = Some rec →
       rec !! "completed_at" = None)
  ∧ cleanup_completed_tasks (mgr (job env new_manager task_id image_data params))
      max_age_seconds current_time
    = Returned (mgr (job env new_manager task_id image_data params)).
Proof.
  destruct (job_follows_path env new_manager task_id image_data params)
    as (progress & awaited & final & Hpath & ->).
  destruct (job_path_final _ _ _ Hpath) as (_ & _ & _ & _ & Hstamp & _).
  assert (Hnone : ∀ tid rec,
            completed_tasks (mgr (job_outcome new_manager task_id progress awaited final))
              !! tid = Some rec → rec !! "completed_at" = None).
  { unfold job_outcome. cbn [mgr completed_tasks new_manager]. intros tid rec.
    rewrite lookup_insert. case_decide; [|by rewrite lookup_empty].
    by intros [= <-]. }
  split_and!; [|done|by apply cleanup_no_timestamp].
  unfold job_outcome. cbn [mgr completed_tasks]. rewrite lookup_insert_eq. eauto.
Qed.

End cleanup.

(** * Further properties of the vectorization engine *)

Section binary_extra.
Import Vectorizer.

Lemma filter_Forall_id {A} (P : A → Prop) `{!∀ x, Decision (P x)} (l : list A) :
  Forall P l → filter P l = l.
Proof.
  induction 1 as [|x l Hx _ IH]; [done|]. by rewrite filter_cons_True, IH.
Qed.

Lemma row_rects_units (fuel : nat) a (y x : nat) :
  width a - x ≤ fuel →
  row_rects fuel a false y x
  = (λ xi, Rect xi y 1 1 "black")
      <$> filter (λ xi, binary a y xi = true) (seq x (width a - x)).
Proof.
  revert x. induction fuel as [|fuel IH]; intros x Hfuel; simpl.
  - by replace (width a - x) with 0 by lia.
  - case_bool_decide as Hx; [|by replace (width a - x) with 0 by lia].
    destruct (binary a y x) eqn:Hb.
    + pose proof (skip_run_step (width a - x - 1) a y x Hx Hb) as Hgt.
      replace (S (width a - x - 1)) with (width a - x) in Hgt by lia.
      pose proof (skip_run_le (width a - x) a y x ltac:(lia)) as Hle.
      pose proof (skip_run_dark (width a - x) a y x) as Hdark.
      set (xe := skip_run (width a - x) a y x) in *.
      rewrite IH by lia.
      replace (seq x (width a - x))
        with (seq x (xe - x) ++ seq xe (width a - xe)).
      2:{ replace (width a - x) with ((xe - x) + (width a - xe)) by lia.
          rewrite seq_app. by replace (x + (xe - x)) with xe by lia. }
      rewrite filter_app, fmap_app. f_equal.
      rewrite filter_Forall_id; [done|].
      apply Forall_forall. intros i Hi%elem_of_seq. apply Hdark. lia.
    + rewrite IH by lia.
      replace (width a - x) with (S (width a - S x)) by lia.
      rewrite <-cons_seq, filter_cons_False by congruence. done.
Qed.

Lemma positions_row a (y : nat) :
  filter (λ p, dark a p.1 p.2 = true) ((λ x, (x, y)) <$> seq 0 (width a))
  = if bool_decide (y < height a)
    then (λ x, (x, y)) <$> filter (λ x, binary a y x = true) (seq 0 (width a))
    else [].
Proof.
  assert (Hgen : ∀ x0 n, x0 + n ≤ width a →
    filter (λ p, dark a p.1 p.2 = true) ((λ x, (x, y)) <$> seq x0 n)
    = if bool_decide (y < height a)
      then (λ x, (x, y)) <$> filter (λ x, binary a y x = true) (seq x0 n)
      else []).
  { intros x0 n. revert x0. induction n as [|n IH]; intros x0 Hn.
    - by case_bool_decide.
    - rewrite <-cons_seq, fmap_cons.
      assert (Hdark : dark a x0 y = true ↔ y < height a ∧ binary a y x0 = true).
      { unfold dark. rewrite !andb_true_iff, !bool_decide_eq_true. intuition lia. }
      destruct (decide (dark a x0 y = true)) as [Hd|Hd].
      + rewrite filter_cons_True, IH by (done || lia).
        apply Hdark in Hd as [Hy Hb].
        rewrite bool_decide_eq_true_2 by done.
        by rewrite (filter_cons_True (λ x, binary a y x = true)), fmap_cons by done.
      + rewrite filter_cons_False, IH by (done || lia).
        case_bool_decide as Hy; [|done].
        rewrite (filter_cons_False (λ x, binary a y x = true)); [done|].
        intros Hb. apply Hd, Hdark. done. }
  apply Hgen. lia.
Qed.

Lemma dark_pixels_rows a :
  dark_pixels a
  = seq 0 (height a)
      ≫= λ y, (λ x, (x, y)) <$> filter (λ x, binary a y x = true) (seq 0 (width a)).
Proof.
  unfold dark_pixels, positions. rewrite filter_bind.
  apply Forall_bind_ext, Forall_forall. intros y Hy%elem_of_seq.
  replace (seq 0 (width a) ≫= λ x, [(x, y)])
    with ((λ x, (x, y)) <$> seq 0 (width a)).
  - rewrite positions_row. by rewrite bool_decide_eq_true_2 by lia.
  - induction (seq 0 (width a)) as [|x l IH]; [done|]. by rewrite fmap_cons, bind_cons, IH.
Qed.

Lemma binary_rects_units a :
  binary_rects a false = (λ p, Rect p.1 p.2 1 1 "black") <$> dark_pixels a.
Proof.
  rewrite binary_rects_rows, dark_pixels_rows, fmap_bind.
  change (flat_map ?f ?l) with (l ≫= f).
  apply Forall_bind_ext, Forall_forall. intros y _.
  rewrite row_rects_units by lia. rewrite Nat.sub_0_r.
  by rewrite <-list_fmap_compose.
Qed.

(** X1. Without [simplify] the whole-document binary encoder emits exactly
    one unit black rectangle per dark pixel, in row-major order of the
    pixels, and the strings are those rectangles written out. *)
Theorem binary_unsimplified_is_pixel_list (a : ndarray) :
  vectorize_rects a "binary" false
    = (λ p, Rect p.1 p.2 1 1 "black") <$> dark_pixels a
  ∧ _generate_binary_paths a false
    = (λ p, rect_svg (Rect p.1 p.2 1 1 "black")) <$> dark_pixels a
  ∧ length (_generate_binary_paths a false) = length (dark_pixels a).
Proof.
  rewrite vectorize_rects_binary. unfold _generate_binary_paths.
  rewrite binary_rects_units, <-list_fmap_compose, !length_fmap. done.
Qed.

(** X2. In binary mode every emitted rectangle lies inside the declared
    width and height, is one pixel high, at least one pixel wide, and
    black. *)
Theorem binary_rects_inside_viewbox (a : ndarray) (simplify : bool) :
  Forall (λ r, rx r + rw r ≤ width a ∧ ry r + rh r ≤ height a
               ∧ 0 < rw r ∧ rh r = 1 ∧ rfill r = "black")
         (vectorize_rects a "binary" simplify).
Proof.
  rewrite vectorize_rects_binary. apply Forall_forall.
  intros r (Hy & Hh & Hfill & Hw & Hx)%binary_rects_shape.
  split_and!; (done || lia).
Qed.

Lemma units_sorted (y xs n : nat) :
  StronglySorted before ((λ xi, Rect xi y 1 1 "black") <$> seq xs n).
Proof.
  revert xs. induction n as [|n IH]; intros xs; simpl; constructor; [apply IH|].
  apply Forall_fmap, Forall_forall. intros xi Hxi%elem_of_seq.
  right. simpl. lia.
Qed.

Lemma emit_run_sorted simplify (y xs xe : nat) :
  StronglySorted before (emit_run simplify y xs xe).
Proof.
  unfold emit_run. destruct (simplify && bool_decide (1 < xe - xs)).
  - repeat constructor.
  - apply units_sorted.
Qed.

Lemma row_rects_sorted fuel a simplify (y x : nat) :
  StronglySorted before (row_rects fuel a simplify y x).
Proof.
  revert x. induction fuel as [|fuel IH]; intros x; simpl; [constructor|].
  case_bool_decide as Hx; [|constructor].
  destruct (binary a y x); [|apply IH].
  apply StronglySorted_app_2; [|apply emit_run_sorted|apply IH].
  intros r1 r2 Hr1%emit_run_shape Hr2%row_rects_shape. right. lia.
Qed.

Lemma rows_sorted a simplify (y0 n : nat) :
  StronglySorted before
    (flat_map (λ y, row_rects (width a) a simplify y 0) (seq y0 n)).
Proof.
  revert y0. induction n as [|n IH]; intros y0; simpl; [constructor|].
  apply StronglySorted_app_2; [|apply row_rects_sorted|apply IH].
  intros r1 r2 Hr1%row_rects_shape Hr2%list_elem_of_In.
  apply in_flat_map in Hr2 as (y & Hy%in_seq & Hr2%list_elem_of_In).
  apply row_rects_shape in Hr2. left. lia.
Qed.

(** X3. The rectangles of binary mode come in row-major order: each one
    lies in an earlier row than every later one, or in the same row and
    entirely to its left. *)
Theorem binary_rects_row_major (a : ndarray) (simplify : bool) :
  StronglySorted before (vectorize_rects a "binary" simplify).
Proof.
  rewrite vectorize_rects_binary, binary_rects_rows. apply rows_sorted.
Qed.

Lemma length_emit_run_le (y xs xe : nat) :
  length (emit_run true y xs xe) ≤ length (emit_run false y xs xe).
Proof.
  unfold emit_run. simpl. rewrite length_fmap, length_seq.
  case_bool_decide; simpl; [lia|]. by rewrite length_fmap, length_seq.
Qed.

Lemma length_row_rects_le fuel a (y x : nat) :
  length (row_rects fuel a true y x) ≤ length (row_rects fuel a false y x).
Proof.
  revert x. induction fuel as [|fuel IH]; intros x; simpl; [done|].
  case_bool_decide; [|done]. destruct (binary a y x); [|apply IH].
  rewrite !length_app.
  pose proof (length_emit_run_le y x (skip_run (width a - x) a y x)).
  pose proof (IH (skip_run (width a - x) a y x)). lia.
Qed.

(** X4. [simplify] never costs rectangles: with it the binary encoder emits
    at most as many rectangles as without it, hence at most one per dark
    pixel. *)
Theorem simplify_never_emits_more (a : ndarray) :
  length (vectorize_rects a "binary" true)
  ≤ length (vectorize_rects a "binary" false)
  ∧ length (vectorize_rects a "binary" false) = length (dark_pixels a).
Proof.
  rewrite !vectorize_rects_binary. split.
  - rewrite !binary_rects_rows.
    induction (seq 0 (height a)) as [|y ys IH]; simpl; [done|].
    rewrite !length_app. pose proof (length_row_rects_le (width a) a y 0). lia.
  - by rewrite binary_rects_units, length_fmap.
Qed.

End binary_extra.

Section grayscale_extra.
Import Vectorizer.

Lemma reach_count_cons side (v : nat) origins (p : nat) :
  reach_count side (v :: origins) p
  = (if bool_decide (v ≤ p < v + side) then 1 else 0) + reach_count side origins p.
Proof.
  unfold reach_count. rewrite filter_cons.
  case_decide; case_bool_decide; done.
Qed.

Lemma reach_count_app side origins1 origins2 (p : nat) :
  reach_count side (origins1 ++ origins2) p
  = reach_count side origins1 p + reach_count side origins2 p.
Proof. unfold reach_count. by rewrite filter_app, length_app. Qed.

Lemma reach_count_multiples (side k p : nat) :
  reach_count side ((λ i, i * side) <$> seq 0 k) p
  = if bool_decide (p < k * side) then 1 else 0.
Proof.
  induction k as [|k IH].
  - by rewrite bool_decide_eq_false_2 by lia.
  - rewrite seq_S, fmap_app, reach_count_app, IH. simpl.
    rewrite reach_count_cons. unfold reach_count. simpl.
    repeat case_bool_decide; lia.
Qed.

Lemma reach_count_py_range (side stop p : nat) :
  0 < side → p < stop → reach_count side (py_range stop side) p = 1.
Proof.
  intros Hside Hp. unfold py_range. rewrite reach_count_multiples.
  rewrite bool_decide_eq_true_2; [done|].
  destruct (decide (p < (stop + side - 1) / side * side)) as [?|Hge]; [done|].
  assert ((stop + side - 1) / side < (stop + side - 1) / side); [|lia].
  apply ceil_div_gt; lia.
Qed.

Lemma cover_count_samples_row side (y : nat) (xs : list nat) (c : nat → string)
    (px py : nat) :
  cover_count (xs ≫= λ x, [Rect x y side side (c x)]) px py
  = (if bool_decide (y ≤ py < y + side) then 1 else 0) * reach_count side xs px.
Proof.
  induction xs as [|x xs IH].
  - unfold reach_count. simpl. by rewrite Nat.mul_0_r.
  - rewrite bind_cons, cover_count_app, IH, reach_count_cons.
    simpl. unfold covers. simpl.
    repeat case_bool_decide; simpl; lia.
Qed.

Lemma cover_count_samples side (ys xs : list nat) (c : nat → nat → string)
    (px py : nat) :
  cover_count (ys ≫= λ y, xs ≫= λ x, [Rect x y side side (c y x)]) px py
  = reach_count side ys py * reach_count side xs px.
Proof.
  induction ys as [|y ys IH].
  - done.
  - rewrite bind_cons, cover_count_app, IH, reach_count_cons.
    rewrite (cover_count_samples_row side y xs (c y)). lia.
Qed.

(** X5. The grayscale rectangles tile the grid: every pixel of the grid is
    covered by exactly one emitted rectangle, the square of side [step]
    whose corner is the pixel's cell origin, and that square is filled with
    the intensity sampled at the origin, not at the pixel. *)
Theorem grayscale_tiles_grid (a : ndarray) (simplify : bool) (x y : nat) :
  x < width a → y < height a →
  cover_count (vectorize_rects a "grayscale" simplify) x y = 1
  ∧ Rect (grayscale_step simplify * (x / grayscale_step simplify))
         (grayscale_step simplify * (y / grayscale_step simplify))
         (grayscale_step simplify) (grayscale_step simplify)
         (rgb (item a (grayscale_step simplify * (y / grayscale_step simplify))
                      (grayscale_step simplify * (x / grayscale_step simplify))))
    ∈ vectorize_rects a "grayscale" simplify
  ∧ covers (Rect (grayscale_step simplify * (x / grayscale_step simplify))
                 (grayscale_step simplify * (y / grayscale_step simplify))
                 (grayscale_step simplify) (grayscale_step simplify)
                 (rgb (item a (grayscale_step simplify * (y / grayscale_step simplify))
                              (grayscale_step simplify * (x / grayscale_step simplify)))))
           x y = true.
Proof.
  intros Hx Hy. rewrite vectorize_rects_grayscale.
  pose proof (grayscale_step_pos simplify) as Hstep.
  set (s := grayscale_step simplify) in *.
  pose proof (Nat.Div0.mul_div_le x s). pose proof (Nat.Div0.mul_div_le y s).
  pose proof (Nat.mul_succ_div_gt x s ltac:(lia)).
  pose proof (Nat.mul_succ_div_gt y s ltac:(lia)).
  split_and!.
  - unfold grayscale_rects. fold s.
    rewrite (cover_count_samples s _ _ (λ y x, rgb (item a y x))).
    rewrite !reach_count_py_range by done. done.
  - apply elem_of_grayscale_rects. exists (s * (x / s)), (s * (y / s)).
    split_and!; [lia|lia|by exists (x / s); lia|by exists (y / s); lia|done].
  - apply covers_spec. simpl. lia.
Qed.

(** Pixel (3, 2) of a 4 by 3 grid under [simplify]: its cell origin is
    (2, 2). *)
Lemma grayscale_tiles_grid_witness :
  cover_count (vectorize_rects (Ndarray 3 4 (λ y x, Z.of_nat (y + x)))
                 "grayscale" true) 3 2 = 1
  ∧ Rect 2 2 2 2 (rgb 4) ∈ vectorize_rects (Ndarray 3 4 (λ y x, Z.of_nat (y + x)))
                            "grayscale" true
  ∧ covers (Rect 2 2 2 2 (rgb 4)) 3 2 = true.
Proof.
  apply (grayscale_tiles_grid (Ndarray 3 4 (λ y x, Z.of_nat (y + x))) true 3 2).
  - simpl. lia.
  - simpl. lia.
Defined.

End grayscale_extra.

Section streaming_extra.
Import Vectorizer.

(** X6. The streaming generator ignores [color_mode], and what it streams
    under [simplify] is the list of rectangles of the whole-document binary
    encoder with the rectangles of width 1 left out, in the same order;
    without [simplify] it streams no rectangle. *)
Theorem streaming_is_filtered_document (a : ndarray) (color_mode other_mode : string)
    (simplify : bool) :
  vectorize_streaming a color_mode simplify = vectorize_streaming a other_mode simplify
  ∧ streaming_rects a color_mode simplify
    = (if simplify
       then filter (λ r, 1 < rw r) (vectorize_rects a "binary" true)
       else []).
Proof.
  rewrite vectorize_rects_binary, !vectorize_streaming_rects, !streaming_rects_spec.
  done.
Qed.

Lemma band_count_bounds (h : nat) : min h 10 ≤ length (bands h) ≤ min h 19.
Proof.
  unfold bands. rewrite length_fmap, length_py_range.
  set (ch := max 1 (h / 10)). assert (0 < ch) by (unfold ch; lia).
  pose proof (Nat.div_mod h 10 ltac:(lia)) as Hdm.
  pose proof (Nat.mod_upper_bound h 10 ltac:(lia)) as Hmod.
  set (k := (h + ch - 1) / ch).
  assert (Hk : ∀ i, i < k ↔ i * ch < h) by (intros i; by apply ceil_div_gt).
  assert (¬ h < k) by (rewrite Hk; nia).
  destruct (decide (h < 10)) as [Hsmall|Hbig].
  - assert (ch = 1) as Hch.
    { unfold ch. rewrite (Nat.div_small h 10) by lia. lia. }
    assert (h ≤ k); [|lia].
    destruct h as [|h']; [lia|]. apply (proj2 (Hk h')). lia.
  - assert (ch = h / 10) as Hch by (unfold ch; lia).
    assert (9 < k) by (apply Hk; lia).
    assert (¬ 19 < k) by (rewrite Hk; lia).
    lia.
Qed.

Lemma bands_shape (h : nat) :
  Forall (λ b : nat * nat, b.1 < b.2 ≤ h ∧ b.2 - b.1 ≤ max 1 (h / 10)) (bands h).
Proof.
  unfold bands. apply Forall_fmap, Forall_forall.
  intros y_start [Hlt _]%elem_of_py_range; [|lia]. simpl. lia.
Qed.

(** X7. The bands of the streaming generator split the rows, in order and
    without gap or overlap; no band is empty and none is higher than
    [max(1, height // 10)]; there are as many bands as rows below 10 rows,
    and between 10 and 19 bands from 10 rows on. *)
Theorem bands_partition_rows (h : nat) :
  bands h ≫= (λ b, seq b.1 (b.2 - b.1)) = seq 0 h
  ∧ Forall (λ b : nat * nat, b.1 < b.2 ≤ h ∧ b.2 - b.1 ≤ max 1 (h / 10)) (bands h)
  ∧ min h 10 ≤ length (bands h) ≤ min h 19.
Proof.
  split_and!.
  - apply bands_rows.
  - apply bands_shape.
  - apply band_count_bounds.
  - apply band_count_bounds.
Qed.

Lemma cover_count_filter_keep (P : rect → Prop) `{!∀ r, Decision (P r)}
    (rs : list rect) (x y : nat) :
  (∀ r, r ∈ rs → covers r x y = true → P r) →
  cover_count (filter P rs) x y = cover_count rs x y.
Proof.
  induction rs as [|r rs IH]; intros Hkeep; [done|].
  rewrite filter_cons. destruct (decide (P r)) as [HP|HP]; simpl.
  - rewrite IH; [done|]. intros r' Hr'. apply Hkeep. by right.
  - rewrite IH by (intros r' Hr'; apply Hkeep; by right).
    destruct (covers r x y) eqn:Hc; [|done].
    destruct HP. apply Hkeep; [by left|done].
Qed.

Lemma cover_count_filter_drop (P : rect → Prop) `{!∀ r, Decision (P r)}
    (rs : list rect) (x y : nat) :
  (∀ r, r ∈ rs → covers r x y = true → ¬ P r) →
  cover_count (filter P rs) x y = 0.
Proof.
  induction rs as [|r rs IH]; intros Hdrop; [done|].
  rewrite filter_cons. destruct (decide (P r)) as [HP|HP]; simpl.
  - rewrite IH by (intros r' Hr'; apply Hdrop; by right).
    destruct (covers r x y) eqn:Hc; [|done].
    destruct (Hdrop r); [by left|done|done].
  - apply IH. intros r' Hr'. apply Hdrop. by right.
Qed.

Lemma run_longer_iff_neighbour a (y xs xe x : nat) :
  maximal_run a y xs xe → xs ≤ x < xe →
  1 < xe - xs ↔ has_dark_neighbour a x y = true.
Proof.
  intros (Hrange & Hd & Hstart & Hend) Hx. unfold has_dark_neighbour.
  rewrite orb_true_iff, !andb_true_iff, !bool_decide_eq_true. split.
  - intros Hlen. destruct (decide (xs < x)) as [?|?].
    + left. split; [lia|]. apply Hd. lia.
    + right. split; [lia|]. apply Hd. lia.
  - intros [[Hpos Hb]|[Hpos Hb]].
    + destruct (decide (xs = x)) as [->|?]; [|lia].
      destruct Hstart as [?|Hs]; [lia|congruence].
    + destruct (decide (xe = x + 1)) as [->|?]; [|lia].
      destruct Hend as [?|He]; [lia|congruence].
Qed.

(** A rectangle of the whole-document encoder that covers a pixel is wider
    than 1 exactly when the pixel has a dark neighbour in its row. *)
Lemma covering_rect_width a (x y : nat) r :
  r ∈ binary_rects a true → covers r x y = true →
  1 < rw r ↔ has_dark_neighbour a x y = true.
Proof.
  intros (y' & xs & xe & Hy & Hrun & Hr)%elem_of_binary_rects Hc.
  apply covers_spec in Hc.
  apply elem_of_emit_run in Hr as [(_ & Hlen & ->)|(Hshort & xi & Hxi & ->)];
    simpl in Hc.
  - assert (y' = y) as -> by lia. simpl.
    apply run_longer_iff_neighbour; [done|lia].
  - assert (y' = y) as -> by lia. assert (xi = x) as -> by lia. simpl.
    rewrite <-(run_longer_iff_neighbour a y xs xe x Hrun) by lia.
    destruct Hshort as [?|?]; [done|]. lia.
Qed.

(** X8. What the stream covers: under [simplify] a pixel is covered by a
    streamed rectangle, and then by exactly one, if and only if it is dark
    and the pixel to its left or to its right is dark too. *)
Theorem streaming_covers_runs_only (a : ndarray) (color_mode : string) (x y : nat) :
  cover_count (streaming_rects a color_mode true) x y
  = if dark a x y && has_dark_neighbour a x y then 1 else 0.
Proof.
  rewrite streaming_rects_spec.
  destruct (has_dark_neighbour a x y) eqn:Hn.
  - rewrite andb_true_r, cover_count_filter_keep.
    + apply cover_count_binary_rects.
    + intros r Hr Hc. by apply (covering_rect_width a x y r Hr Hc).
  - rewrite andb_false_r. apply cover_count_filter_drop.
    intros r Hr Hc Hw. apply (covering_rect_width a x y r Hr Hc) in Hw. congruence.
Qed.

(** X9. When no dark pixel is isolated in its row, the streamed fragments
    put together are the very document [_create_svg_from_array] builds in
    binary mode under [simplify]. *)
Theorem streaming_agrees_without_isolated_pixels (a : ndarray) (color_mode : string) :
  (∀ x y, dark a x y = true → has_dark_neighbour a x y = true) →
  join EmptyString (vectorize_streaming a color_mode true)
  = _create_svg_from_array a (width a) (height a) "binary" true.
Proof.
  intros Hpaired. rewrite streaming_text, create_svg_text.
  rewrite vectorize_rects_binary, streaming_rects_spec.
  rewrite filter_Forall_id; [done|].
  apply Forall_forall. intros r Hr.
  pose proof (binary_rects_shape _ _ _ Hr) as (Hy & Hh & _ & Hw & Hx).
  assert (Hc : covers r (rx r) (ry r) = true) by (apply covers_spec; lia).
  apply (covering_rect_width a _ _ r Hr Hc). apply Hpaired.
  destruct (dark a (rx r) (ry r)) eqn:Hd; [done|].
  pose proof (cover_count_binary_rects a true (rx r) (ry r)) as Hcount.
  rewrite Hd in Hcount.
  assert (0 < cover_count (binary_rects a true) (rx r) (ry r)); [|lia].
  apply cover_count_pos. eauto.
Qed.

(** A row whose first two pixels are dark. *)
Lemma streaming_agrees_without_isolated_pixels_witness :
  join EmptyString
    (vectorize_streaming
       (Ndarray 1 3 (λ _ x, if bool_decide (x < 2) then 0%Z else 255%Z))
       "binary" true)
  = _create_svg_from_array
      (Ndarray 1 3 (λ _ x, if bool_decide (x < 2) then 0%Z else 255%Z))
      3 1 "binary" true.
Proof.
  apply (streaming_agrees_without_isolated_pixels
           (Ndarray 1 3 (λ _ x, if bool_decide (x < 2) then 0%Z else 255%Z))
           "binary").
  intros x y. destruct x as [|[|[|x]]]; vm_compute; congruence.
Defined.

End streaming_extra.

(** * Preprocessing and vectorization together *)

Section threshold_extra.
Import Vectorizer Preprocessor.

Lemma dark_threshold_stage a (t : Z) (x y : nat) :
  dark (threshold_stage a (Some t)) x y
  = bool_decide (x < width a) && bool_decide (y < height a)
    && bool_decide (item a y x ≤ t)%Z.
Proof.
  unfold dark, binary, threshold. simpl. f_equal.
  repeat case_bool_decide; done || lia.
Qed.

(** X10. After the threshold stage the binary encoder draws exactly the
    pixels whose gray value is at most the threshold: each such pixel of
    the grid is covered once, every other pixel never, whatever [simplify]
    is; the fixed level 128 of the encoder plays no part. The samples that
    reach the encoder are 0 or 255, so in grayscale mode every fill is
    [rgb(0,0,0)] or [rgb(255,255,255)]. *)
Theorem threshold_decides_coverage (a : ndarray) (t : Z) (simplify : bool) :
  (∀ x y,
     cover_count (vectorize_rects (threshold_stage a (Some t)) "binary" simplify) x y
     = if bool_decide (x < width a) && bool_decide (y < height a)
          && bool_decide (item a y x ≤ t)%Z
       then 1 else 0)
  ∧ Forall (λ r, rfill r = rgb 0 ∨ rfill r = rgb 255)
           (vectorize_rects (threshold_stage a (Some t)) "grayscale" simplify).
Proof.
  split.
  - intros x y.
    rewrite vectorize_rects_binary, cover_count_binary_rects.
    by rewrite dark_threshold_stage.
  - rewrite vectorize_rects_grayscale. apply Forall_forall.
    intros r (x & y & _ & _ & _ & _ & ->)%elem_of_grayscale_rects. simpl.
    case_bool_decide; [by right|by left].
Qed.

End threshold_extra.

(** * Further properties of the cache layer *)

Section cache_extra.
Import Py CacheManager.
Context {world : Type}.

Lemma disabled_commands (self : CacheManager world) key value ttl_arg w :
  enabled self = false →
  get self key w = (Returned None, w)
  ∧ set self key value ttl_arg w = (Returned tt, w)
  ∧ exists_ self key w = (Returned false, w).
Proof.
  intros Hoff. unfold get, set, exists_. rewrite Hoff. simpl.
  by destruct (redis_client self).
Qed.

(** X11. [connect] never raises; it leaves the cache enabled exactly when it
    was enabled, the client could be built and its ping answered, and then
    a client is set. Otherwise the cache is disabled for good: every [get]
    is a miss, every [set] a no-op and every [exists] false, none of them
    touching the store, and a later [connect] changes nothing. *)
Theorem connect_failure_disables (self : CacheManager world)
    (make_client : outcome (Redis world * RedisControl world)) (w : world) :
  (enabled (connect self make_client w).1 = true ↔
     enabled self = true
     ∧ ∃ client control w',
         make_client = Returned (client, control)
         ∧ redis_ping control w = (Returned tt, w'))
  ∧ (enabled (connect self make_client w).1 = true →
     is_Some (redis_client (connect self make_client w).1))
  ∧ (enabled (connect self make_client w).1 = false →
     ∀ key value ttl_arg w2 make_client2,
       get (connect self make_client w).1 key w2 = (Returned None, w2)
       ∧ set (connect self make_client w).1 key value ttl_arg w2 = (Returned tt, w2)
       ∧ exists_ (connect self make_client w).1 key w2 = (Returned false, w2)
       ∧ connect (connect self make_client w).1 make_client2 w2
         = ((connect self make_client w).1, w2)).
Proof.
  split_and!.
  - unfold connect. destruct (enabled self) eqn:Hen; simpl.
    + destruct make_client as [[client control]|e]; simpl.
      * destruct (redis_ping control w) as [[[]|e] w'] eqn:Hping; simpl.
        -- split; [|done]. intros _. split; [done|]. by exists client, control, w'.
        -- split; [done|]. intros (_ & client' & control' & w'' & [= <- <-] & Hp).
           rewrite Hping in Hp. done.
      * split; [done|]. by intros (_ & ? & ? & ? & ? & _).
    + rewrite Hen. split; [done|]. by intros [? _].
  - unfold connect. destruct (enabled self) eqn:Hen; simpl.
    + destruct make_client as [[client control]|e]; simpl; [|done].
      destruct (redis_ping control w) as [[[]|e] w']; simpl; [eauto|done].
    + rewrite Hen. done.
  - intros Hoff key value ttl_arg w2 make_client2.
    destruct (disabled_commands _ key value ttl_arg w2 Hoff) as (? & ? & ?).
    split_and!; [done..|].
    unfold connect at 1. by rewrite Hoff.
Qed.

(** X12. [get_stats] never raises and always tells whether the cache is
    usable: its ["enabled"] entry is true exactly when the cache is enabled
    and has a client, also when the server cannot be asked, in which case
    the answer carries the error text and no counter. Counters the server
    does not report read as 0. *)
Theorem get_stats_reports (self : CacheManager world)
    (control : RedisControl world) (w : world) :
  dict_get (get_stats self control w).1 "enabled" JNull
    = JBool (enabled self && bool_decide (is_Some (redis_client self)))
  ∧ (∀ client e w',
       enabled self = true → redis_client self = Some client →
       redis_info control "stats" w = (Raised e, w') →
       get_stats self control w
       = ([("enabled", JBool true); ("error", JStr e)], w'))
  ∧ (∀ client info w' total w'',
       enabled self = true → redis_client self = Some client →
       redis_info control "stats" w = (Returned info, w') →
       redis_dbsize control w' = (Returned total, w'') →
       get_stats self control w
       = ([("enabled", JBool true);
           ("hits", JInt (default 0%Z (info !! "keyspace_hits")));
           ("misses", JInt (default 0%Z (info !! "keyspace_misses")));
           ("total_keys", JInt total)], w'')).
Proof.
  split_and!.
  - unfold get_stats. destruct (redis_client self) as [client|].
    + rewrite (bool_decide_eq_true_2 (is_Some (Some client))) by eauto.
      destruct (enabled self); simpl; [|done].
      destruct (redis_info control "stats" w) as [[info|e] w']; [|done].
      by destruct (redis_dbsize control w') as [[total|e] w''].
    + rewrite (bool_decide_eq_false_2 (is_Some None)) by (by intros [? ?]).
      by rewrite andb_false_r.
  - intros client e w' Hen Hcl Hinfo. unfold get_stats.
    by rewrite Hcl, Hen, Hinfo.
  - intros client info w' total w'' Hen Hcl Hinfo Hsize. unfold get_stats.
    rewrite Hcl, Hen. simpl. rewrite Hinfo, Hsize. unfold info_get.
    by destruct (info !! "keyspace_hits"), (info !! "keyspace_misses").
Qed.

End cache_extra.

(** * Further properties of the job orchestrator *)

Section cleanup_extra.
Import Py BackgroundTaskManager.

Lemma expired_numeric now max_age (rec : gmap string pyval) :
  (∀ v, rec !! "completed_at" = Some v → ∃ t, v = VInt t) →
  expired now max_age rec = Returned (is_old now max_age rec).
Proof.
  intros Hnum. unfold expired, is_old.
  destruct (rec !! "completed_at") as [v|]; [|done].
  by destruct (Hnum v eq_refl) as [t ->].
Qed.

Lemma collect_expired_numeric now max_age
    (items : list (string * gmap string pyval)) (to_remove : list string) :
  Forall (λ item : string * gmap string pyval,
            ∀ v, item.2 !! "completed_at" = Some v → ∃ t, v = VInt t) items →
  collect_expired now max_age items to_remove
  = Returned (to_remove
              ++ (filter (λ item : string * gmap string pyval,
                            is_old now max_age item.2 = true) items).*1).
Proof.
  intros Hitems. revert to_remove.
  induction Hitems as [|[tid rec] items Hrec _ IH]; intros to_remove.
  - by rewrite app_nil_r.
  - simpl in *. rewrite (expired_numeric _ _ _ Hrec), filter_cons. simpl.
    destruct (is_old now max_age rec) eqn:Hold.
    + rewrite IH. rewrite decide_True by done. by rewrite fmap_cons, <-app_assoc.
    + rewrite IH. by rewrite decide_False by done.
Qed.

Lemma lookup_foldl_delete {A} (m : gmap string A) (l : list string) (k : string) :
  foldl (λ m k, delete k m) m l !! k
  = if decide (k ∈ l) then None else m !! k.
Proof.
  revert m. induction l as [|k' l IH]; intros m.
  - destruct (decide (k ∈ [])) as [Hin|]; [by apply elem_of_nil in Hin|done].
  - change (foldl (λ m k, delete k m) m (k' :: l))
      with (foldl (λ m k, delete k m) (delete k' m) l).
    rewrite IH. destruct (decide (k ∈ l)) as [Hin|Hnin].
    + destruct (decide (k ∈ k' :: l)) as [|Hn]; [done|]. destruct Hn. by right.
    + destruct (decide (k ∈ k' :: l)) as [[->|?]%elem_of_cons|Hn].
      * apply lookup_delete_eq.
      * done.
      * apply lookup_delete_ne. intros ->. apply Hn. left.
Qed.

(** X13. When the timestamps stored are numbers, the sweep returns, leaves
    [pending_tasks] alone and keeps of [completed_tasks] exactly the records
    that have no ['completed_at'] or whose age is at most the limit: a
    record goes if and only if its age is greater than
    [max_age_seconds]. *)
Theorem cleanup_removes_old (self : manager) (max_age_seconds current_time : Z) :
  timestamps_numeric self →
  cleanup_completed_tasks self max_age_seconds current_time
  = Returned
      (Manager (pending_tasks self)
         (filter (λ kv, is_old current_time max_age_seconds kv.2 = false)
                 (completed_tasks self))).
Proof.
  intros Hnum. unfold cleanup_completed_tasks.
  rewrite collect_expired_numeric.
  2:{ apply Forall_forall. intros [tid rec] Hin%elem_of_map_to_list v.
      by apply (Hnum tid rec v). }
  do 2 f_equal. apply map_eq. intros tid. rewrite lookup_foldl_delete. simpl.
  destruct (completed_tasks self !! tid) as [rec|] eqn:Hrec.
  - destruct (is_old current_time max_age_seconds rec) eqn:Hold.
    + rewrite decide_True.
      * symmetry. apply map_lookup_filter_None. right.
        intros rec' Hrec'. simpl. congruence.
      * apply list_elem_of_fmap. exists (tid, rec). split; [done|].
        apply list_elem_of_filter. split; [done|]. by apply elem_of_map_to_list.
    + rewrite decide_False.
      * symmetry. by apply map_lookup_filter_Some.
      * intros ([tid' rec'] & -> & [Hold' Hin%elem_of_map_to_list]%list_elem_of_filter)%list_elem_of_fmap.
        simpl in *. congruence.
  - rewrite decide_False.
    + symmetry. apply map_lookup_filter_None. by left.
    + intros ([tid' rec'] & -> & [_ Hin%elem_of_map_to_list]%list_elem_of_filter)%list_elem_of_fmap.
      simpl in *. congruence.
Qed.

(** A record stamped long ago goes, one without a stamp stays. *)
Lemma cleanup_removes_old_witness :
  cleanup_completed_tasks stamped_manager 50 100
  = Returned
      (Manager (pending_tasks stamped_manager)
         (filter (λ kv, is_old 100 50 kv.2 = false)
                 (completed_tasks stamped_manager))).
Proof.
  apply (cleanup_removes_old stamped_manager 50 100).
  intros tid rec v Hrec Hv. unfold stamped_manager in Hrec. simpl in Hrec.
  apply lookup_insert_Some in Hrec as [[_ <-]|[_ Hrec]].
  - apply lookup_singleton_Some in Hv as [_ <-]. by exists 0%Z.
  - apply lookup_singleton_Some in Hrec as [_ <-]. vm_compute in Hv. discriminate.
Defined.

End cleanup_extra.

Section job_extra.
Import Py BackgroundTaskManager.

Local Ltac job_step :=
  first
    [ rewrite bind_setitem
    | rewrite bind_await
    | rewrite bind_call
    | rewrite bind_completed_assign
    | rewrite record_processing_10
    | rewrite record_progress
    | rewrite delete_insert_eq
    | progress unfold pending_discard
    | progress cbv beta iota zeta
    | progress cbn [mgr observed stages pending_tasks completed_tasks snd app] ].

Local Ltac job_start :=
  unfold job, job_outcome, _process_task, submit_vectorization_task;
  rewrite try_except_eq; fold pending_record;
  repeat job_step.

Lemma job_lookup_raises env self tid data params e :
  cache_get env (generate_cache_key env data params) = Raised e →
  job env self tid data params
  = job_outcome self tid [10%Z] [CacheGet] (failed_record e).
Proof. intros Hget. destruct self as [P C]. job_start. rewrite Hget. by repeat job_step. Qed.

Lemma job_hit env self tid data params b cached :
  cache_get env (generate_cache_key env data params) = Returned (Some (b :: cached)) →
  job env self tid data params
  = job_outcome self tid [10%Z] [CacheGet]
      (match decode_utf8 env (b :: cached) with
       | Returned text => cached_record text
       | Raised e => failed_record e
       end).
Proof.
  intros Hget. destruct self as [P C]. job_start. rewrite Hget. repeat job_step.
  simpl. repeat job_step.
  destruct (decode_utf8 env (b :: cached)); by repeat job_step.
Qed.

Lemma job_miss env self tid data params cached :
  cache_get env (generate_cache_key env data params) = Returned cached →
  cached = None ∨ cached = Some [] →
  job env self tid data params
  = match preprocess env data (dict_get params "resize" (JBool true))
            (dict_get params "enhance" (JBool false))
            (dict_get params "threshold" JNull) with
    | Raised e =>
        job_outcome self tid [10; 30]%Z [CacheGet; Preprocess] (failed_record e)
    | Returned (image_array, metadata) =>
        match vectorize env image_array
                (dict_get params "color_mode" (JStr "binary"))
                (dict_get params "simplify" (JBool true)) with
        | Raised e =>
            job_outcome self tid [10; 30; 60]%Z [CacheGet; Preprocess; Vectorize]
              (failed_record e)
        | Returned svg_result =>
            match cache_set env (generate_cache_key env data params)
                    (encode_utf8 env svg_result) with
            | Raised e =>
                job_outcome self tid [10; 30; 60; 90]%Z
                  [CacheGet; Preprocess; Vectorize; CacheSet] (failed_record e)
            | Returned _ =>
                job_outcome self tid [10; 30; 60; 90]%Z
                  [CacheGet; Preprocess; Vectorize; CacheSet]
                  (computed_record svg_result metadata)
            end
        end
    end.
Proof.
  intros Hget Hmiss. destruct self as [P C]. job_start. rewrite Hget. repeat job_step.
  assert (cache_hit cached = None) as -> by (by destruct Hmiss as [-> | ->]).
  repeat job_step.
  destruct (preprocess env _ _ _ _) as [[arr meta]|e]; [|by repeat job_step].
  repeat job_step.
  destruct (vectorize env _ _ _) as [svg|e]; [|by repeat job_step].
  repeat job_step.
  destruct (cache_set env _ _) as [[]|e]; by repeat job_step.
Qed.

Lemma status_other_insert (P C : gmap string (gmap string pyval)) tid other rec :
  other ≠ tid →
  get_task_status (Manager (<[tid := rec]> P) C) other
  = get_task_status (Manager P C) other.
Proof. intros Hne. unfold get_task_status. simpl. by rewrite lookup_insert_ne. Qed.

(** X14. A job touches the records of its own id only: for every other id
    the status a poller gets is the same before the job, at each point
    where the job is suspended, and after it; both stores keep their other
    entries. *)
Theorem job_leaves_other_tasks (env : collaborators) (self : manager)
    (task_id other : string) (image_data : bytes) (params : pydict) :
  other ≠ task_id →
  Forall (λ m, get_task_status m other = get_task_status self other)
         (observed (job env self task_id image_data params))
  ∧ pending_tasks (mgr (job env self task_id image_data params)) !! other
    = pending_tasks self !! other
  ∧ completed_tasks (mgr (job env self task_id image_data params)) !! other
    = completed_tasks self !! other.
Proof.
  intros Hne.
  destruct (job_follows_path env self task_id image_data params)
    as (progress & awaited & final & _ & ->).
  destruct self as [P C]. unfold job_outcome. cbn [mgr observed pending_tasks completed_tasks].
  split_and!.
  - constructor; [by apply status_other_insert|].
    apply Forall_app. split.
    + apply Forall_fmap, Forall_true. intros p. by apply status_other_insert.
    + constructor; [|constructor]. unfold get_task_status. simpl.
      by rewrite lookup_delete_ne, lookup_insert_ne.
  - by rewrite lookup_delete_ne.
  - by rewrite lookup_insert_ne.
Qed.

(** Job [t1] runs; the record of [t2] stays as it was. *)
Lemma job_leaves_other_tasks_witness :
  Forall (λ m, get_task_status m "t2" = get_task_status stamped_manager "t2")
         (observed (job cached_collaborators stamped_manager "t1" [] []))
  ∧ pending_tasks (mgr (job cached_collaborators stamped_manager "t1" [] [])) !! "t2"
    = pending_tasks stamped_manager !! "t2"
  ∧ completed_tasks (mgr (job cached_collaborators stamped_manager "t1" [] [])) !! "t2"
    = completed_tasks stamped_manager !! "t2".
Proof.
  apply (job_leaves_other_tasks cached_collaborators stamped_manager "t1" "t2" [] []).
  discriminate.
Defined.

(** X15. Submitting an id again after its job has finished puts its status
    back to pending with progress 0, while the record of the finished job
    is still held in [completed_tasks], hidden until the new job ends. *)
Theorem resubmission_returns_to_pending (env : collaborators) (self : manager)
    (task_id : string) (image_data : bytes) (params : pydict) :
  get_task_status
    (submit_vectorization_task (mgr (job env self task_id image_data params)) task_id)
    task_id
  = Some pending_record
  ∧ is_Some (completed_tasks
               (submit_vectorization_task
                  (mgr (job env self task_id image_data params)) task_id)
             !! task_id)
  ∧ phase_rank (get_task_status
                  (submit_vectorization_task
                     (mgr (job env self task_id image_data params)) task_id)
                  task_id)
    < phase_rank (get_task_status (mgr (job env self task_id image_data params))
                    task_id).
Proof.
  destruct (job_follows_path env self task_id image_data params)
    as (progress & awaited & final & Hpath & ->).
  destruct (job_path_final _ _ _ Hpath) as (_ & _ & _ & _ & _ & _ & _ & Hrank).
  assert (Hstatus : ∀ m, get_task_status (submit_vectorization_task m task_id) task_id
                         = Some pending_record).
  { intros m. unfold submit_vectorization_task, get_task_status.
    cbn [pending_tasks]. by rewrite lookup_insert_eq. }
  split_and!.
  - apply Hstatus.
  - unfold submit_vectorization_task, job_outcome.
    cbn [mgr completed_tasks]. rewrite lookup_insert_eq. eauto.
  - rewrite Hstatus, final_status_job_outcome, Hrank.
    change (phase_rank (Some pending_record)) with 0. lia.
Qed.

(** X16. What a job ends with, stage by stage. If the lookup raises, or the
    cached text cannot be decoded, the job fails with that message after the
    lookup alone; a non-empty cached value ends it completed with the decoded
    text and nothing else is awaited. A missing or empty cached value is a
    miss: then the first of preprocessing, vectorization and storing that
    raises ends the job failed with its message and the later stages are
    not awaited, and only if all three return is the job completed. *)
Theorem job_result_by_stage (env : collaborators) (self : manager)
    (task_id : string) (image_data : bytes) (params : pydict) :
  (∀ e, cache_get env (generate_cache_key env image_data params) = Raised e →
        job env self task_id image_data params
        = job_outcome self task_id [10%Z] [CacheGet] (failed_record e))
  ∧ (∀ b cached,
       cache_get env (generate_cache_key env image_data params)
       = Returned (Some (b :: cached)) →
       job env self task_id image_data params
       = job_outcome self task_id [10%Z] [CacheGet]
           (match decode_utf8 env (b :: cached) with
            | Returned text => cached_record text
            | Raised e => failed_record e
            end))
  ∧ (∀ cached,
       cache_get env (generate_cache_key env image_data params) = Returned cached →
       cached = None ∨ cached = Some [] →
       job env self task_id image_data params
       = match preprocess env image_data (dict_get params "resize" (JBool true))
                 (dict_get params "enhance" (JBool false))
                 (dict_get params "threshold" JNull) with
         | Raised e =>
             job_outcome self task_id [10; 30]%Z [CacheGet; Preprocess]
               (failed_record e)
         | Returned (image_array, metadata) =>
             match vectorize env image_array
                     (dict_get params "color_mode" (JStr "binary"))
                     (dict_get params "simplify" (JBool true)) with
             | Raised e =>
                 job_outcome self task_id [10; 30; 60]%Z
                   [CacheGet; Preprocess; Vectorize] (failed_record e)
             | Returned svg_result =>
                 match cache_set env (generate_cache_key env image_data params)
                         (encode_utf8 env svg_result) with
                 | Raised e =>
                     job_outcome self task_id [10; 30; 60; 90]%Z
                       [CacheGet; Preprocess; Vectorize; CacheSet] (failed_record e)
                 | Returned _ =>
                     job_outcome self task_id [10; 30; 60; 90]%Z
                       [CacheGet; Preprocess; Vectorize; CacheSet]
                       (computed_record svg_result metadata)
                 end
             end
         end).
Proof.
  split_and!.
  - intros e. apply job_lookup_raises.
  - intros b cached. apply job_hit.
  - intros cached. apply job_miss.
Qed.

End job_extra.

Section job_cache.
Import Py BackgroundTaskManager.
Context {world : Type}.


End job_cache.

Section job_cache_example.
Import Py BackgroundTaskManager.


End job_cache_example.

(** * Properties of the HTTP endpoints *)

Section convert_extra.
Import Py CacheManager Main.
Context {world : Type}.
Variable xxh64_hexdigest : bytes → string.
Variable encode_basestring : string → string.
Variable encode_utf8 : string → bytes.
Variable http_exception_str : Z → string → string.
Variable dict_str : list (string * pyval) → string.

Local Abbreviation convert_image :=
  (Main.convert_image xxh64_hexdigest encode_basestring encode_utf8
     http_exception_str dict_str).


(** X19. With [use_cache=false] the cache plays no part in [convert_image]:
    the store is left as it was, and the reply is the one the same request
    gets from a service with any other cache layer in any other state. *)
Theorem convert_image_without_cache {world' : Type} (cfg : settings)
    (env : services (world:=world)) (env' : services (world:=world'))
    (file : upload_file) (resize enhance : bool) (threshold : option Z)
    (color_mode : string) (simplify : bool) (processing_time : string)
    (w : world) (w' : world') :
  preprocess env = preprocess env' →
  vectorize env = vectorize env' →
  (convert_image cfg env file resize enhance threshold color_mode simplify
     false processing_time w).2 = w
  ∧ (convert_image cfg env file resize enhance threshold color_mode simplify
       false processing_time w).1
    = (Main.convert_image xxh64_hexdigest encode_basestring encode_utf8
         http_exception_str dict_str cfg env' file resize enhance threshold
         color_mode simplify false processing_time w').1.
Proof.
  intros Hpre Hvec. unfold Main.convert_image, convert_image_try.
  rewrite Hpre, Hvec.
  destruct (oversize cfg file); [done|].
  destruct (read file) as [data|e]; [|done].
  cbn [BackgroundTaskManager.cache_hit].
  destruct (preprocess env' _ _ _ _) as [[arr meta]|e]; [|done].
  by destruct (vectorize env' _ _ _) as [svg|e].
Qed.

(** Commands of the cache layer on the store kept in memory. *)
Lemma get_memory key (store : gmap string bytes) :
  get memory_cache key store = (Returned (store !! key), store).
Proof. done. Qed.

Lemma set_memory key value ttl_arg (store : gmap string bytes) :
  set memory_cache key value ttl_arg store = (Returned tt, <[key := value]> store).
Proof. done. Qed.

(** X20. A conversion that was computed is served from the cache next
    time: when a request with [use_cache] gets a computed document whose
    encoding is not empty, a later request with the same bytes and
    parameters on the store it left gets those encoded bytes as a hit,
    whatever the preprocessor and the vectorizer would do then, and leaves
    the store as it is. The cache here is the store kept in memory. *)
Theorem convert_image_miss_then_hit (cfg : settings)
    (env env' : services (world:=gmap string bytes)) (file file' : upload_file)
    (resize enhance : bool) (threshold : option Z) (color_mode : string)
    (simplify : bool) (processing_time processing_time' : string)
    (store : gmap string bytes) (svg media_type : string)
    (headers : list (string * string)) :
  cache_manager env = memory_cache →
  cache_manager env' = memory_cache →
  read file' = read file →
  oversize cfg file' = false →
  (Main.convert_image xxh64_hexdigest encode_basestring encode_utf8
     http_exception_str dict_str cfg env file resize enhance threshold color_mode
     simplify true processing_time store).1
  = Response (Text svg) media_type headers →
  encode_utf8 svg ≠ [] →
  let store' :=
    (Main.convert_image xxh64_hexdigest encode_basestring encode_utf8
       http_exception_str dict_str cfg env file resize enhance threshold
       color_mode simplify true processing_time store).2 in
  Main.convert_image xxh64_hexdigest encode_basestring encode_utf8
    http_exception_str dict_str cfg env' file' resize enhance threshold
    color_mode simplify true processing_time' store'
  = (Response (Binary (encode_utf8 svg)) svg_media_type [("X-Cache", "HIT")],
     store').
Proof.
  intros Hcache Hcache' Hread Hsize. cbv zeta.
  unfold Main.convert_image, convert_image_try.
  rewrite Hcache, Hcache', Hread, Hsize.
  destruct (oversize cfg file); [done|].
  destruct (read file) as [data|e]; [|done].
  cbv zeta. rewrite !get_memory.
  set (key := generate_cache_key _ _ _ _ _).
  destruct (BackgroundTaskManager.cache_hit (store !! key)) as [hit|] eqn:Hmiss;
    [done|].
  destruct (preprocess env _ _ _ _) as [[arr meta]|e]; [|done].
  destruct (vectorize env _ _ _) as [svg0|e]; [|done].
  rewrite set_memory. cbn [fst snd]. intros [= -> _ _] Hbytes.
  rewrite lookup_insert_eq.
  destruct (encode_utf8 svg) as [|b rest]; [done|]. done.
Qed.

End convert_extra.

Section convert_example.
Import Py CacheManager Main.

Lemma convert_image_without_cache_witness :
  (Main.convert_image (λ _, "0123456789abcdef") id String.list_byte_of_string
     (λ _ detail, detail) (λ _, "{}") default_settings example_services
     example_file true false None "binary" true false "0.001" ∅).2 = ∅.
Proof.
  refine (proj1 (convert_image_without_cache (λ _, "0123456789abcdef") id
                   String.list_byte_of_string (λ _ detail, detail) (λ _, "{}")
                   default_settings example_services example_services
                   example_file true false None "binary" true "0.001" ∅ ∅ _ _));
    reflexivity.
Defined.

Lemma convert_image_miss_then_hit_witness :
  (Main.convert_image (λ _, "0123456789abcdef") id String.list_byte_of_string
     (λ _ detail, detail) (λ _, "{}") default_settings example_services
     example_file true false None "binary" true true "0.002"
     (Main.convert_image (λ _, "0123456789abcdef") id String.list_byte_of_string
        (λ _ detail, detail) (λ _, "{}") default_settings example_services
        example_file true false None "binary" true true "0.001" ∅).2).1
  = Response (Binary (String.list_byte_of_string "<svg></svg>")) svg_media_type
      [("X-Cache", "HIT")].
Proof.
  refine (f_equal fst
            (convert_image_miss_then_hit (λ _, "0123456789abcdef") id
               String.list_byte_of_string (λ _ detail, detail) (λ _, "{}")
               default_settings example_services example_services
               example_file example_file true false None "binary" true
               "0.001" "0.002" ∅ "<svg></svg>" svg_media_type
               [("X-Cache", "MISS"); ("X-Processing-Time", "0.001s");
                ("X-Metadata", "{}")] _ _ _ _ _ _));
    [reflexivity|reflexivity|reflexivity|reflexivity|vm_compute; reflexivity
    |discriminate].
Defined.

End convert_example.

Section task_result_extra.
Import Py BackgroundTaskManager Main.
Variable dict_str : list (string * pyval) → string.

(** X21. Once a job is over, [get_task_result] never answers with an error:
    for a failed job it returns the JSON object with status ["failed"] and
    the message "Task not yet completed" (the branch that would raise the
    500 with the stored error is not reached), and for a completed job it
    returns the stored document with the task id and the cache flag in the
    headers. It neither raises nor answers 404. *)
Theorem finished_job_result (env : collaborators) (self : manager)
    (task_id : string) (image_data : bytes) (params : pydict) :
  let finished := mgr (job env self task_id image_data params) in
  (∃ e,
     get_task_status finished task_id = Some (failed_record e)
     ∧ get_task_result dict_str finished task_id
       = Returned (JSONResponse
                     [("status", VStr "failed");
                      ("message", VStr "Task not yet completed")]))
  ∨ (∃ result from_cache,
       get_task_status finished task_id ≫= (.!! "result") = Some (VStr result)
       ∧ get_task_result dict_str finished task_id
         = Returned (Response (VStr result) svg_media_type
                       [("X-Task-ID", task_id);
                        ("X-From-Cache", if from_cache : bool then "True" else "False")])).
Proof.
  cbv zeta.
  destruct (job_follows_path env self task_id image_data params)
    as (progress & awaited & final & Hpath & ->).
  unfold get_task_result. rewrite final_status_job_outcome.
  destruct Hpath;
    first [ left; by eexists
          | right; eexists _, true; by split
          | right; eexists _, false; by split ].
Qed.

End task_result_extra.

Section upload_extra.
Import Py CacheManager Main.
Variable http_exception_str : Z → string → string.

Lemma offline_commands {world} (cache : CacheManager world) key value ttl_arg w :
  enabled cache = false ∨ redis_client cache = None →
  get cache key w = (Returned None, w)
  ∧ set cache key value ttl_arg w = (Returned tt, w).
Proof.
  intros [Hoff|Hoff]; unfold get, set; rewrite Hoff; [|done].
  by destruct (redis_client cache).
Qed.

Lemma gather_offline {world} (cache : CacheManager world) upload_id indices
    full_data w :
  enabled cache = false ∨ redis_client cache = None →
  gather cache upload_id indices full_data w = (Returned full_data, w).
Proof.
  intros Hoff. induction indices as [|i rest IH]; [done|].
  cbn [gather].
  by rewrite (proj1 (offline_commands cache _ [] None w Hoff)).
Qed.

(** X22. Without a working cache a chunked upload keeps nothing: when the
    cache layer is disabled or has no client, the request for the last
    chunk is answered "complete" with a total size of 0, whatever the chunk
    holds and whatever was sent before, and the store is not touched. *)
Theorem upload_without_cache_counts_nothing {world} (cache : CacheManager world)
    (chunk : upload_file) (chunk_data : bytes) (total_chunks : Z)
    (upload_id uuid4 : string) (w : world) :
  enabled cache = false ∨ redis_client cache = None →
  read chunk = Returned chunk_data →
  upload_chunk http_exception_str cache chunk (total_chunks - 1) total_chunks
    upload_id uuid4 w
  = (complete_reply
       (if bool_decide (upload_id = EmptyString) then uuid4 else upload_id) 0, w).
Proof.
  intros Hoff Hread. unfold upload_chunk, upload_chunk_try.
  rewrite Hread. cbv zeta.
  rewrite (proj2 (offline_commands cache _ chunk_data (Some 3600%Z) w Hoff)).
  rewrite bool_decide_eq_true_2 by done.
  by rewrite gather_offline.
Qed.

Lemma chunk_key_inj upload_id : Inj (=) (=) (chunk_key upload_id).
Proof.
  intros i j Hkey. unfold chunk_key in Hkey.
  do 3 apply (inj (String.app _)) in Hkey.
  by apply (inj pretty) in Hkey.
Qed.

Lemma gather_memory upload_id indices full_data (store : gmap string bytes) :
  gather memory_cache upload_id indices full_data store
  = (Returned (full_data ++ concat (stored store upload_id <$> indices)), store).
Proof.
  revert full_data. induction indices as [|i rest IH]; intros full_data.
  { by rewrite app_nil_r. }
  cbn [gather]. rewrite get_memory, fmap_cons. cbn [concat]. unfold stored at 1.
  destruct (store !! chunk_key upload_id i) as [[|b data]|];
    cbn [BackgroundTaskManager.cache_hit default]; rewrite IH;
    by rewrite ?app_assoc, ?app_nil_r.
Qed.

(** One request on the store kept in memory. *)
Lemma upload_chunk_memory chunk_data n total upload_id uuid4
    (store : gmap string bytes) :
  let id := if bool_decide (upload_id = EmptyString) then uuid4 else upload_id in
  let store' := <[chunk_key id n := chunk_data]> store in
  upload_chunk http_exception_str memory_cache
    (UploadFile None (Returned chunk_data)) n total upload_id uuid4 store
  = (if bool_decide (n = total - 1)%Z
     then complete_reply id
            (length (concat (stored store' id <$> chunk_range total)))
     else partial_reply id n total, store').
Proof.
  cbv zeta. unfold upload_chunk, upload_chunk_try. cbn [read].
  rewrite set_memory. case_bool_decide; [|done].
  by rewrite gather_memory.
Qed.

(** The chunks of [sent] are all in the store, under their numbers. *)
Local Abbreviation holds store upload_id sent :=
  (∀ (i : nat) (chunk_data : bytes),
     sent !! i = Some chunk_data →
     store !! chunk_key upload_id (Z.of_nat i) = Some chunk_data).

Lemma stored_chunks upload_id (sent : list bytes) (store : gmap string bytes) :
  holds store upload_id sent →
  stored store upload_id <$> chunk_range (Z.of_nat (length sent)) = sent.
Proof.
  intros Hsent. unfold chunk_range. rewrite Nat2Z.id.
  apply list_eq. intros i. rewrite !list_lookup_fmap.
  destruct (sent !! i) as [chunk_data|] eqn:Hi.
  - rewrite lookup_seq_lt by (by eapply lookup_lt_Some).
    cbn. unfold stored. by rewrite (Hsent i chunk_data Hi).
  - rewrite lookup_seq_ge; [done|]. by apply lookup_ge_None.
Qed.

Lemma upload_session_memory upload_id uuid4 (chunks sent : list bytes)
    (store : gmap string bytes) :
  upload_id ≠ EmptyString →
  chunks ≠ [] →
  holds store upload_id sent →
  (upload_session http_exception_str memory_cache upload_id uuid4
     (Z.of_nat (length (sent ++ chunks))) (Z.of_nat (length sent)) chunks store).1
  = ((λ i : nat, partial_reply upload_id (Z.of_nat i)
                   (Z.of_nat (length (sent ++ chunks))))
       <$> seq (length sent) (length chunks - 1))
    ++ [complete_reply upload_id (length (concat (sent ++ chunks)))].
Proof.
  intros Hid. revert sent store.
  induction chunks as [|chunk_data rest IH]; intros sent store Hne Hsent; [done|].
  cbn [upload_session]. rewrite upload_chunk_memory. cbv zeta.
  rewrite bool_decide_eq_false_2 by done.
  set (store' := <[chunk_key upload_id (Z.of_nat (length sent)) := chunk_data]> store).
  assert (holds store' upload_id (sent ++ [chunk_data])) as Hsent'.
  { intros i c Hi. unfold store'.
    apply lookup_app_Some in Hi as [Hi|[Hge Hi]].
    - rewrite lookup_insert_ne; [by apply Hsent|].
      intros Hkey%chunk_key_inj. apply lookup_lt_Some in Hi. lia.
    - apply list_lookup_singleton_Some in Hi as [Hi ->].
      replace i with (length sent) by lia. by rewrite lookup_insert_eq. }
  destruct rest as [|next rest].
  - cbn [upload_session length seq fmap list_fmap app fst Nat.sub].
    rewrite bool_decide_eq_true_2 by (rewrite length_app; cbn; lia).
    do 3 f_equal. by rewrite (stored_chunks upload_id _ store' Hsent').
  - rewrite bool_decide_eq_false_2 by (rewrite length_app; cbn; lia).
    specialize (IH (sent ++ [chunk_data]) store' ltac:(done) Hsent').
    rewrite <-!(assoc_L (++)) in IH. cbn [app] in IH.
    replace (length (sent ++ [chunk_data])) with (S (length sent)) in IH
      by (rewrite length_app; cbn; lia).
    replace (Z.of_nat (S (length sent))) with (Z.of_nat (length sent) + 1)%Z in IH
      by lia.
    destruct (upload_session _ _ _ _ _ _ (next :: rest) store') as [replies w2].
    cbn [fst] in *. rewrite IH.
    replace (length (chunk_data :: next :: rest) - 1)
      with (S (length (next :: rest) - 1)) by (cbn; lia).
    by cbn [seq fmap list_fmap app].
Qed.

(** X23. A client that sends all chunks of a file in order under one
    upload id, to a service whose cache is the store kept in memory, is
    answered "partial" for every chunk but the last and "complete" for the
    last one, with the total size being the size of the whole file. This
    holds whatever the store held before. *)
Theorem upload_in_order_total_size (upload_id : string) (uuid4 : Z → string)
    (chunks : list bytes) (store : gmap string bytes) :
  upload_id ≠ EmptyString →
  chunks ≠ [] →
  (upload_session http_exception_str memory_cache upload_id uuid4
     (Z.of_nat (length chunks)) 0 chunks store).1
  = ((λ i : nat, partial_reply upload_id (Z.of_nat i) (Z.of_nat (length chunks)))
       <$> seq 0 (length chunks - 1))
    ++ [complete_reply upload_id (length (concat chunks))].
Proof.
  intros Hid Hne.
  by apply (upload_session_memory upload_id uuid4 chunks [] store).
Qed.

(** X24. Completion is decided by the chunk number alone: on a store that
    holds no chunk of this upload, the request for the last of
    [total_chunks] chunks is answered "complete" with the size of that one
    chunk, although no other chunk was received. *)
Theorem upload_last_chunk_alone_completes (upload_id uuid4 : string)
    (chunk_data : bytes) (total_chunks : Z) (store : gmap string bytes) :
  let id := if bool_decide (upload_id = EmptyString) then uuid4 else upload_id in
  (1 ≤ total_chunks)%Z →
  (∀ i, store !! chunk_key id i = None) →
  (upload_chunk http_exception_str memory_cache
     (UploadFile None (Returned chunk_data)) (total_chunks - 1) total_chunks
     upload_id uuid4 store).1
  = complete_reply id (length chunk_data).
Proof.
  cbv zeta. intros Htotal Hfresh. rewrite upload_chunk_memory. cbv zeta.
  rewrite bool_decide_eq_true_2 by done. cbn [fst]. do 2 f_equal.
  set (id := if bool_decide _ then _ else _) in *.
  unfold chunk_range.
  replace (Z.to_nat total_chunks) with (Z.to_nat (total_chunks - 1) + 1) by lia.
  rewrite seq_app, !fmap_app, concat_app. cbn [seq fmap list_fmap concat].
  rewrite Nat.add_0_l, Z2Nat.id by lia.
  unfold stored at 2. rewrite lookup_insert_eq. cbn [default].
  rewrite app_nil_r.
  rewrite (proj2 (concat_nil_Forall _)); [done|].
  apply Forall_fmap, Forall_forall. intros i Hi. cbn. unfold stored.
  apply list_elem_of_fmap in Hi as (k & -> & Hk%elem_of_seq).
  rewrite lookup_insert_ne, Hfresh; [done|].
  intros Hkey%chunk_key_inj. lia.
Qed.

End upload_extra.

Section upload_example.
Import Py CacheManager Main.

Lemma upload_without_cache_counts_nothing_witness :
  upload_chunk (λ _ detail, detail) offline_cache example_file 2 3 "u1" "fresh" tt
  = (complete_reply "u1" 0, tt).
Proof.
  exact (upload_without_cache_counts_nothing (λ _ detail, detail) offline_cache
           example_file [Byte.x01; Byte.x02; Byte.x03] 3 "u1" "fresh" tt
           (or_introl eq_refl) eq_refl).
Defined.

Lemma upload_in_order_total_size_witness :
  (upload_session (λ _ detail, detail) memory_cache "u1" (λ _, "fresh") 2 0
     [[Byte.x01]; [Byte.x02; Byte.x03]] ∅).1
  = [partial_reply "u1" 0 2; complete_reply "u1" 3].
Proof.
  refine (upload_in_order_total_size (λ _ detail, detail) "u1" (λ _, "fresh")
            [[Byte.x01]; [Byte.x02; Byte.x03]] ∅ _ _); discriminate.
Defined.

Lemma upload_last_chunk_alone_completes_witness :
  (upload_chunk (λ _ detail, detail) memory_cache
     (UploadFile None (Returned [Byte.x01; Byte.x02])) 2 3 "u1" "fresh" ∅).1
  = complete_reply "u1" 2.
Proof.
  refine (upload_last_chunk_alone_completes (λ _ detail, detail) "u1" "fresh"
            [Byte.x01; Byte.x02] 3 ∅ _ _); [lia|].
  intros i. apply lookup_empty.
Defined.

End upload_example.
